(** * Electro Power front-end: a shallow embedding of [assets/js/main.js]

    Part I holds the model, in the order of the script:
    - [EventLoop]: the browser's timer queue ([setTimeout], [clearTimeout])
      and a run-to-completion scheduler;
    - [Utils]: [utils.debounce] and [utils.throttle];
    - [Dom]: the part of the document the widgets query and mutate;
    - [ProductTabs], [FormHandler], [ElectroPowerApp]: the widgets and
      the composer;
    - [MobileNav], [AutoScroll]: the menu and the scroll animation.
    Part II holds the properties.

    JavaScript values that matter for control flow are kept as they are in
    the script: [undefined] and [null] are [None], truthiness tests are
    written out, and a thrown exception is an explicit completion that
    keeps the mutations made before it. *)

From stdpp Require Import gmap strings list fin_maps.
From Stdlib Require Import ZArith Lia.

(** * Part I: the model *)

(** ** Completions: a handler either returns or throws *)

Inductive JsError :=
  | TypeError (msg : string)
  | OtherError (msg : string).

Inductive Completion (A : Type) :=
  | Return (a : A)
  | Throw (e : JsError).
Arguments Return {A} a.
Arguments Throw {A} e.

(** Stateful JavaScript code. The state reached is returned also when the
    code throws: what was mutated before the throw stays mutated. *)
Definition Js (S A : Type) : Type := S → S * Completion A.

Definition ret {S A} (a : A) : Js S A := λ s, (s, Return a).
Definition throw {S A} (e : JsError) : Js S A := λ s, (s, Throw e).
Definition bind {S A B} (m : Js S A) (k : A → Js S B) : Js S B :=
  λ s, match m s with
       | (s', Return a) => k a s'
       | (s', Throw e) => (s', Throw e)
       end.
Definition modify {S} (f : S → S) : Js S unit := λ s, (f s, Return tt).
Definition gets {S A} (f : S → A) : Js S A := λ s, (s, Return (f s)).

(** [try { body } catch (e) { handler }] *)
Definition tryCatch {S A} (body : Js S A) (handler : JsError → Js S A) : Js S A :=
  λ s, match body s with
       | (s', Return a) => (s', Return a)
       | (s', Throw e) => handler e s'
       end.

Notation "'let*' x ':=' m 'in' k" := (bind m (λ x, k))
  (at level 10, x name, m at level 100, k at level 200, only parsing).
Notation "m '>>' k" := (bind m (λ _, k))
  (at level 100, k at level 200, right associativity, only parsing).

(** [array.forEach(f)] for an effectful [f]: left to right, stopping at
    the first throw. *)
Fixpoint forEach {S A} (f : A → Js S unit) (l : list A) : Js S unit :=
  match l with
  | [] => ret tt
  | x :: l' => f x >> forEach f l'
  end.

(** ** The timer queue and the event loop *)

Module EventLoop.
Local Open Scope Z_scope.

Section Loop.
Context {Task St : Type}.

(** A pending [setTimeout]: its id, the time it is due and the callback,
    kept as data. *)
Record Timer := mkTimer { tid : nat; due : Z; task : Task }.

(** [now] is the time elapsed since the start of the trace, in ms. *)
Record Loop := mkLoop {
  now : Z;
  nextId : nat;
  pending : list Timer;
  st : St
}.

Definition setSt (f : St → St) (l : Loop) : Loop :=
  mkLoop (now l) (nextId l) (pending l) (f (st l)).

Definition start (s : St) : Loop := mkLoop 0 1 [] s.

(** The delay as the platform keeps it. The argument of [setTimeout] is
    a [long]: the number wrapped to a signed 32-bit integer, so that a
    delay from 2^31 up to 2^32 ms comes out negative; a negative delay
    counts as zero. *)
Definition toLong (x : Z) : Z := (x + 2147483648) mod 4294967296 - 2147483648.
Definition timerDelay (delay : Z) : Z := Z.max 0 (toLong delay).

(** [setTimeout(k, delay)]: ids are positive and increasing. *)
Definition setTimeout (k : Task) (delay : Z) (l : Loop) : nat * Loop :=
  (nextId l,
   mkLoop (now l) (S (nextId l))
          (pending l ++ [mkTimer (nextId l) (now l + timerDelay delay) k])
          (st l)).

(** [clearTimeout(h)]: [undefined], [null] and the id of a timer that has
    fired or was cleared are ignored. *)
Definition clearTimeout (h : option nat) (l : Loop) : Loop :=
  match h with
  | None => l
  | Some id =>
      mkLoop (now l) (nextId l)
             (filter (λ t, tid t ≠ id) (pending l)) (st l)
  end.

(** The timer the loop runs next: the earliest due one, the older one
    among equals ([pending] is in creation order). *)
Fixpoint earliest (ts : list Timer) : option Timer :=
  match ts with
  | [] => None
  | t :: ts' =>
      match earliest ts' with
      | Some u => if due u <? due t then Some u else Some t
      | None => Some t
      end
  end.

Definition settle (horizon : option Z) (l : Loop) : Loop :=
  match horizon with
  | Some h => mkLoop (Z.max (now l) h) (nextId l) (pending l) (st l)
  | None => l
  end.

Definition reached (horizon : option Z) (t : Timer) : bool :=
  match horizon with
  | Some h => due t <=? h
  | None => true
  end.

Variable fire : Task → Loop → Loop.

(** Runs the timers due up to [horizon] (all of them for [None]), each at
    its due time, then moves the clock to the horizon. A callback may
    schedule further timers, hence the fuel: [None] means that the fuel
    ran out, not that the loop stopped. *)
Fixpoint runTimers (fuel : nat) (horizon : option Z) (l : Loop) : option Loop :=
  match earliest (pending l) with
  | Some t =>
      if reached horizon t then
        match fuel with
        | O => None
        | S n =>
            runTimers n horizon
              (fire (task t)
                 (mkLoop (due t) (nextId l)
                         (filter (λ u, tid u ≠ tid t) (pending l)) (st l)))
        end
      else Some (settle horizon l)
  | None => Some (settle horizon l)
  end.

Variable Args : Type.
Variable call : Args → Loop → Loop.

(** A trace of activations [(t, args)] in time order: the timers due by
    [t] run before the activation at [t]; after the last activation the
    remaining timers run. *)
Fixpoint runTrace (fuel : nat) (trace : list (Z * Args)) (l : Loop) : option Loop :=
  match trace with
  | [] => runTimers fuel None l
  | (t, a) :: trace' =>
      match runTimers fuel (Some t) l with
      | Some l' => runTrace fuel trace' (call a l')
      | None => None
      end
  end.

End Loop.
Arguments Timer : clear implicits.
Arguments Loop : clear implicits.
End EventLoop.

(** ** Utility functions: [utils.debounce] and [utils.throttle] *)

Module Utils.
Import EventLoop.
Local Open Scope Z_scope.

(** [!x] for a timer handle or a timestamp: [undefined], [null] and [0]
    are falsy. *)
Definition truthyId (h : option nat) : bool :=
  match h with Some (S _) => true | _ => false end.
Definition truthyNum (x : option Z) : bool :=
  match x with Some v => negb (v =? 0) | None => false end.

Section Wrappers.
(** The arguments of one activation. The wrapped callback [func] is
    observed through the log of its executions [(time, arguments)]. *)
Context {Args : Type}.

(** *** debounce *)

Record DebounceSt := mkDebounce {
  timeout : option nat;               (* let timeout *)
  dlog : list (Z * Args)
}.

(** The closure [later], which captures [args]. *)
Inductive DebounceTask := Later (args : Args).

Definition dfunc (args : Args) (l : Loop DebounceTask DebounceSt) :=
  setSt (λ s, mkDebounce (timeout s) (dlog s ++ [(now l, args)])) l.

Section Debounce.
Variables (wait : Z) (immediate : bool).

Definition later (k : DebounceTask) (l : Loop DebounceTask DebounceSt) :=
  let 'Later args := k in
  let l := setSt (λ s, mkDebounce None (dlog s)) l in
  if negb immediate then dfunc args l else l.

Definition executedFunction (args : Args) (l : Loop DebounceTask DebounceSt) :=
  let callNow := immediate && negb (truthyId (timeout (st l))) in
  let l := clearTimeout (timeout (st l)) l in
  let '(id, l) := setTimeout (Later args) wait l in
  let l := setSt (λ s, mkDebounce (Some id) (dlog s)) l in
  if callNow then dfunc args l else l.

(** [utils.debounce(func, wait, immediate)] returns [executedFunction]
    with a fresh [timeout]. *)
Definition debounce :
    (Args → Loop DebounceTask DebounceSt → Loop DebounceTask DebounceSt)
    * Loop DebounceTask DebounceSt :=
  (executedFunction, start (mkDebounce None [])).

Definition debounceRun (fuel : nat) (trace : list (Z * Args)) :=
  runTrace later Args debounce.1 fuel trace debounce.2.
End Debounce.

(** *** throttle *)

Record ThrottleSt := mkThrottle {
  lastFunc : option nat;              (* let lastFunc *)
  lastRan : option Z;                 (* let lastRan *)
  tlog : list (Z * Args)
}.

(** The arrow function handed to [setTimeout], which captures [args]. *)
Inductive ThrottleTask := Trailing (args : Args).

Section Throttle.
(** [epoch] is the value of [Date.now()] at the start of the trace. *)
Variables (limit : Z) (epoch : Z).

Definition DateNow (l : Loop ThrottleTask ThrottleSt) : Z := epoch + now l.

Definition tfunc (args : Args) (l : Loop ThrottleTask ThrottleSt) :=
  setSt (λ s, mkThrottle (lastFunc s) (lastRan s) (tlog s ++ [(now l, args)])) l.

(** [func(...args); lastRan = Date.now();] *)
Definition runAndStamp (args : Args) (l : Loop ThrottleTask ThrottleSt) :=
  let l := tfunc args l in
  setSt (λ s, mkThrottle (lastFunc s) (Some (DateNow l)) (tlog s)) l.

(** The timer callback. With [lastRan] undefined the difference is NaN
    and the comparison false. *)
Definition trailing (k : ThrottleTask) (l : Loop ThrottleTask ThrottleSt) :=
  let 'Trailing args := k in
  match lastRan (st l) with
  | Some r => if limit <=? DateNow l - r then runAndStamp args l else l
  | None => l
  end.

Definition throttled (args : Args) (l : Loop ThrottleTask ThrottleSt) :=
  if negb (truthyNum (lastRan (st l))) then runAndStamp args l
  else
    let r := default 0 (lastRan (st l)) in
    let l := clearTimeout (lastFunc (st l)) l in
    let '(id, l) := setTimeout (Trailing args) (limit - (DateNow l - r)) l in
    setSt (λ s, mkThrottle (Some id) (lastRan s) (tlog s)) l.

(** [utils.throttle(func, limit)] returns the wrapper with fresh
    [lastFunc] and [lastRan]. *)
Definition throttle :
    (Args → Loop ThrottleTask ThrottleSt → Loop ThrottleTask ThrottleSt)
    * Loop ThrottleTask ThrottleSt :=
  (throttled, start (mkThrottle None None [])).

Definition throttleRun (fuel : nat) (trace : list (Z * Args)) :=
  runTrace trailing Args throttle.1 fuel trace throttle.2.
End Throttle.
End Wrappers.
Arguments DebounceSt : clear implicits.
Arguments DebounceTask : clear implicits.
Arguments ThrottleSt : clear implicits.
Arguments ThrottleTask : clear implicits.
End Utils.

(** ** Moving the origin of the wall clock under the throttle *)

Module ThrottleClock.
Import EventLoop Utils.
Local Open Scope Z_scope.

Section Shift.
Context {Args : Type}.
Variables (e d : Z).

(** The same state with [Date.now()] read [d] ms later. *)
Definition shiftSt (s : ThrottleSt Args) : ThrottleSt Args :=
  mkThrottle (lastFunc s) ((λ r, r + d) <$> lastRan s) (tlog s).
Definition shift (l : Loop (ThrottleTask Args) (ThrottleSt Args)) :=
  setSt shiftSt l.

(** What the wrapper maintains on a clock that starts at [e]: time does
    not run backwards and every stamp was read from the clock. *)
Record Inv (l : Loop (ThrottleTask Args) (ThrottleSt Args)) : Prop := mkInv {
  inv_now : 0 <= now l;
  inv_due : Forall (λ t, 0 <= due t) (pending l);
  inv_ran : ∀ r, lastRan (st l) = Some r → e <= r
}.
End Shift.
End ThrottleClock.

(** ** The document *)

Module Dom.

(** A child of the render target: an element with its class and markup. *)
Record Node := mkNode { className : string; innerHTML : string }.

(** An element the widgets look up: its class list, its [data-tab]
    attribute ([None] when absent, as [getAttribute] returns [null]) and
    its child nodes. *)
Record Element := mkElement {
  classList : list string;
  dataTab : option string;
  children : list Node
}.

(** The document lists its elements in document order. An element
    reference held by a script is the element's index; the scripts never
    add or remove such elements, so a reference stays valid. *)
Abbreviation Document := (list Element).

Definition contains (c : string) (e : Element) : bool :=
  bool_decide (c ∈ classList e).

Definition classList_remove (c : string) (e : Element) : Element :=
  mkElement (filter (λ x, x ≠ c) (classList e)) (dataTab e) (children e).

Definition classList_add (c : string) (e : Element) : Element :=
  if contains c e then e
  else mkElement (classList e ++ [c]) (dataTab e) (children e).

(** [el.innerHTML = ''] *)
Definition clearChildren (e : Element) : Element :=
  mkElement (classList e) (dataTab e) [].

Definition appendChild (n : Node) (e : Element) : Element :=
  mkElement (classList e) (dataTab e) (children e ++ [n]).

(** The selectors the script uses: [.c1.c2...] and [[data-tab=v]]. *)
Inductive Selector :=
  | ByClasses (cs : list string)
  | ByDataTab (v : string).

Definition matches (sel : Selector) (e : Element) : bool :=
  match sel with
  | ByClasses cs => forallb (λ c, contains c e) cs
  | ByDataTab v => bool_decide (dataTab e = Some v)
  end.

Fixpoint findFrom (i : nat) (sel : Selector) (doc : list Element) : option nat :=
  match doc with
  | [] => None
  | e :: doc' => if matches sel e then Some i else findFrom (S i) sel doc'
  end.

Fixpoint allFrom (i : nat) (sel : Selector) (doc : list Element) : list nat :=
  match doc with
  | [] => []
  | e :: doc' =>
      if matches sel e then i :: allFrom (S i) sel doc'
      else allFrom (S i) sel doc'
  end.

(** [document.querySelector]: the first match in document order, or null. *)
Definition querySelector (sel : Selector) (doc : Document) : option nat :=
  findFrom 0 sel doc.

(** [document.querySelectorAll]: a static list of all matches. *)
Definition querySelectorAll (sel : Selector) (doc : Document) : list nat :=
  allFrom 0 sel doc.

(** A selector that does not mention the class [active]. *)
Definition untouched (sel : Selector) : Prop :=
  match sel with
  | ByClasses cs => "active" ∉ cs
  | ByDataTab _ => True
  end.

(** [el.getAttribute('data-tab')] *)
Definition getAttribute_dataTab (el : nat) (doc : Document) : option string :=
  doc !! el ≫= dataTab.

End Dom.

(** ** Product tabs *)

Module ProductTabs.
Import Dom.

Record Product := mkProduct {
  name : string;
  price : string;
  image : string;
  features : list string
}.

(** The object literal of [getProductData]: its own properties. *)
Definition productData : gmap string (list Product) :=
  {[ "scooters" :=
       [ mkProduct "Kugoo C1" "450 BYN" "../assets/images/products/kugoo-c1.jpg"
           ["25 км/ч"; "25 км запас хода"; "7.5 Ач батарея"];
         mkProduct "Kugoo M2" "650 BYN" "../assets/images/products/kugoo-m2.jpg"
           ["35 км/ч"; "35 км запас хода"; "10.4 Ач батарея"];
         mkProduct "Kugoo M4 Pro" "850 BYN" "../assets/images/products/kugoo-m4-pro.jpg"
           ["45 км/ч"; "50 км запас хода"; "18 Ач батарея"] ];
     "bikes" :=
       [ mkProduct "GT V6" "1200 BYN" "../assets/images/products/gt-v6.jpg"
           ["25 км/ч"; "60 км запас хода"; "13 Ач батарея"];
         mkProduct "CAMRY 3.5" "1500 BYN" "../assets/images/products/camry-35.jpg"
           ["25 км/ч"; "70 км запас хода"; "16 Ач батарея"];
         mkProduct "Kugoo Kirin C2" "1800 BYN" "../assets/images/products/kugoo-kirin-c2.jpg"
           ["25 км/ч"; "80 км запас хода"; "20 Ач батарея"] ];
     "mopeds" :=
       [ mkProduct "CityCoco GT X-11" "2500 BYN" "../assets/images/products/citycoco-gt-x11.jpg"
           ["45 км/ч"; "60 км запас хода"; "20 Ач батарея"];
         mkProduct "GT EV3" "3200 BYN" "../assets/images/products/gt-ev3.jpg"
           ["60 км/ч"; "80 км запас хода"; "32 Ач батарея"];
         mkProduct "IKINGI X7 PRO" "4500 BYN" "../assets/images/products/ikingi-x7-pro.jpg"
           ["80 км/ч"; "120 км запас хода"; "60 Ач батарея"] ] ]}.

(** What [productData[key]] can evaluate to. *)
Inductive JsValue :=
  | JsUndefined
  | JsArray (ps : list Product)
  | JsFunction (fname : string)
  | JsObject (oname : string).

(** [productData] is a plain object literal, so a key it does not own is
    looked up on [Object.prototype]. *)
Definition prototypeMethods : list string :=
  [ "constructor"; "hasOwnProperty"; "isPrototypeOf"; "propertyIsEnumerable";
    "toLocaleString"; "toString"; "valueOf";
    "__defineGetter__"; "__defineSetter__";
    "__lookupGetter__"; "__lookupSetter__" ].

Definition ObjectPrototype (key : string) : JsValue :=
  if bool_decide (key ∈ prototypeMethods) then JsFunction key
  else if bool_decide (key = "__proto__") then JsObject "Object.prototype"
  else JsUndefined.

Definition getProperty (key : string) : JsValue :=
  match productData !! key with
  | Some ps => JsArray ps
  | None => ObjectPrototype key
  end.

Definition truthy (v : JsValue) : bool :=
  match v with JsUndefined => false | _ => true end.

(** A property key is a string; [null] becomes ["null"]. *)
Definition toPropertyKey (type : option string) : string := default "null" type.

(** [return productData[type] || productData.scooters;] *)
Definition getProductData (type : option string) : JsValue :=
  let v := getProperty (toPropertyKey type) in
  if truthy v then v else getProperty "scooters".

(** Text of the template literal of [createProductCard]. *)
Definition quote : string := String (Ascii.ascii_of_nat 34) EmptyString.
Definition newline : string := String (Ascii.ascii_of_nat 10) EmptyString.
Definition attr (a v : string) : string := a +:+ "=" +:+ quote +:+ v +:+ quote.
Definition line (indent : string) (text : string) : string :=
  indent +:+ text +:+ newline.
Definition join (l : list string) : string := foldr String.append EmptyString l.

Definition featureChip (feature : string) : string :=
  "<span " +:+ attr "class" "feature" +:+ ">" +:+ feature +:+ "</span>".

Definition cardHTML (product : Product) : string :=
  let i12 := "            " in
  let i16 := "                " in
  let i20 := "                    " in
  newline
  +:+ line i12 ("<div " +:+ attr "class" "product-image" +:+ ">")
  +:+ line i16 ("<img " +:+ attr "src" (image product) +:+ " "
                +:+ attr "alt" (name product) +:+ " "
                +:+ attr "loading" "lazy" +:+ ">")
  +:+ line i16 ("<div " +:+ attr "class" "product-badge" +:+ ">Хит продаж</div>")
  +:+ line i12 "</div>"
  +:+ line i12 ("<div " +:+ attr "class" "product-content" +:+ ">")
  +:+ line i16 ("<h3 " +:+ attr "class" "product-title" +:+ ">"
                +:+ name product +:+ "</h3>")
  +:+ line i16 ("<div " +:+ attr "class" "product-features" +:+ ">")
  +:+ line i20 (join (featureChip <$> features product))
  +:+ line i16 "</div>"
  +:+ line i16 ("<div " +:+ attr "class" "product-price" +:+ ">"
                +:+ price product +:+ "</div>")
  +:+ line i16 ("<div " +:+ attr "class" "product-actions" +:+ ">")
  +:+ line i20 ("<button " +:+ attr "class" "btn btn-primary btn-small"
                +:+ ">Купить</button>")
  +:+ line i20 ("<button " +:+ attr "class" "btn btn-outline btn-small"
                +:+ ">Подробнее</button>")
  +:+ line i16 "</div>"
  +:+ line i12 "</div>"
  +:+ "        ".

Definition createProductCard (product : Product) : Node :=
  mkNode "product-card" (cardHTML product).

(** The widget object: [this.tabButtons], the static list taken by [init]. *)
Record ProductTabs := mkProductTabs { tabButtons : list nat }.

Definition modelsGrid : Selector := ByClasses ["models-grid"].

Definition loadTabContent (tabType : option string) : Js Document unit :=
  let* grid := gets (querySelector modelsGrid) in
  match grid with
  | None => ret tt
  | Some g =>
      let products := getProductData tabType in
      modify (alter clearChildren g) >>
      match products with
      | JsArray ps =>
          forEach (λ product,
                     let productCard := createProductCard product in
                     modify (alter (appendChild productCard) g)) ps
      | _ => throw (TypeError "products.forEach is not a function")
      end
  end.

Definition switchTab (this : ProductTabs) (activeButton : nat) : Js Document unit :=
  let* targetTab := gets (getAttribute_dataTab activeButton) in
  forEach (λ button, modify (alter (classList_remove "active") button))
          (tabButtons this) >>
  modify (alter (classList_add "active") activeButton) >>
  loadTabContent targetTab.

Definition loadDefaultTab : Js Document unit :=
  let* defaultButton := gets (querySelector (ByClasses ["tab-button"; "active"])) in
  match defaultButton with
  | Some b =>
      let* tab := gets (getAttribute_dataTab b) in
      loadTabContent tab
  | None => ret tt
  end.

(** [init]: take the tab buttons, bind the click listeners (see [click]),
    load the default tab. *)
Definition init : Js Document ProductTabs :=
  let* buttons := gets (querySelectorAll (ByClasses ["tab-button"])) in
  loadDefaultTab >>
  ret (mkProductTabs buttons).

(** A click on element [el]: [bindEvents] put a listener on the tab
    buttons and on nothing else. *)
Definition click (this : ProductTabs) (el : nat) : Js Document unit :=
  if bool_decide (el ∈ tabButtons this) then switchTab this el else ret tt.

(** A page session: the widget is constructed, then the user clicks. An
    exception leaving a listener is reported by the browser and the page
    goes on, so only the state is threaded. The listeners are bound
    before the default tab is loaded and stay bound if that throws. *)
Definition clicks (this : ProductTabs) (els : list nat) (doc : Document) : Document :=
  foldl (λ d el, (click this el d).1) doc els.

Definition session (els : list nat) (doc : Document) : Document :=
  let this := mkProductTabs (querySelectorAll (ByClasses ["tab-button"]) doc) in
  clicks this els (init doc).1.

(** What the render target holds. *)
Definition renderTarget (doc : Document) : option (list Node) :=
  querySelector modelsGrid doc ≫= λ g, children <$> doc !! g.

Definition knownCategories : list string := ["scooters"; "bikes"; "mopeds"].

(** Closed forms of the two halves of [switchTab], used to state what it
    does element by element: the marking of the buttons and the
    rendering of a list of cards. *)
Definition mark (this : ProductTabs) (activeButton : nat) (doc : Document) : Document :=
  alter (classList_add "active") activeButton
        (foldl (λ d button, alter (classList_remove "active") button d)
               doc (tabButtons this)).

(** What the marking does to the element at index [j]. *)
Definition markElem (this : ProductTabs) (activeButton j : nat) (e : Element) : Element :=
  (if decide (j = activeButton) then classList_add "active" else id)
    ((if decide (j ∈ tabButtons this) then classList_remove "active" else id) e).

Definition setChildren (ns : list Node) (e : Element) : Element :=
  mkElement (classList e) (dataTab e) ns.

Definition cardsFor (type : option string) : list Node :=
  match getProductData type with
  | JsArray ps => createProductCard <$> ps
  | _ => []
  end.

Definition render (type : option string) (doc : Document) : Document :=
  match querySelector modelsGrid doc with
  | Some g => alter (setChildren (cardsFor type)) g doc
  | None => doc
  end.

(** The completion of [loadTabContent]. *)
Definition outcome (type : option string) (doc : Document) : Completion unit :=
  match querySelector modelsGrid doc, getProductData type with
  | Some _, JsArray _ => Return tt
  | Some _, _ => Throw (TypeError "products.forEach is not a function")
  | None, _ => Return tt
  end.

(** The number of tab controls marked active. *)
Definition isActive (doc : Document) (el : nat) : bool :=
  match doc !! el with Some e => contains "active" e | None => false end.
Definition activeCount (this : ProductTabs) (doc : Document) : nat :=
  length (filter (λ el, isActive doc el = true) (tabButtons this)).

End ProductTabs.

(** ** Consultation form *)

Module FormHandler.
Import EventLoop.
Local Open Scope Z_scope.

(** A text-like control of the form. [value] is what the user typed,
    [defaultValue] what the markup declares (empty when it declares
    nothing); [form.reset()] restores the latter. *)
Record Input := mkInput {
  itype : option string;              (* the type attribute *)
  iname : option string;              (* the name attribute *)
  value : string;
  defaultValue : string
}.

Record Button := mkButton {
  btype : option string;              (* the type attribute *)
  textContent : string;
  disabled : bool
}.

(** [this.consultationForm]: its controls in document order. A button
    reference is its index in [buttons]. *)
Record Form := mkForm { inputs : list Input; buttons : list Button }.

(** A toast appended to the body. *)
Record Notification := mkNotification {
  nClassName : string;
  nMessage : string;
  nBackgroundColor : string;
  nTransform : string;
  nAttached : bool                    (* still has a parentNode *)
}.

(** The DOM effects of the handlers, in the order they happen. *)
Inductive Effect :=
  | EPreventDefault
  | ESetTimeout (delay : Z)
  | ENotify (type : string)
  | EFormReset
  | EButtonText (text : string)
  | EButtonDisabled (flag : bool).

Record Page := mkPage {
  form : Form;
  notifications : list Notification;
  journal : list Effect
}.

(** The callbacks handed to [setTimeout]. [ResumeSubmit] is the rest of
    [submitConsultationRequest] after its [await], with the locals it
    captured. *)
Inductive Task :=
  | ResumeSubmit (submitBtn : nat) (originalText : string)
  | AnimateIn (notification : nat)
  | AutoRemove (notification : nat)
  | Detach (notification : nat).

Abbreviation PLoop := (Loop Task Page).

Definition record (e : Effect) : Js PLoop unit :=
  modify (setSt (λ p, mkPage (form p) (notifications p) (journal p ++ [e]))).

Definition setForm (f : Form → Form) : Js PLoop unit :=
  modify (setSt (λ p, mkPage (f (form p)) (notifications p) (journal p))).

Definition setNotification (n : nat) (f : Notification → Notification) : PLoop → PLoop :=
  setSt (λ p, mkPage (form p) (alter f n (notifications p)) (journal p)).

Definition schedule (k : Task) (delay : Z) : Js PLoop nat :=
  record (ESetTimeout delay) >>
  λ l, let '(id, l') := setTimeout k delay l in (l', Return id).

(** [new FormData(form).get(n)]: the value of the first control named
    [n], or null. *)
Definition FormData_get (n : string) (f : Form) : option string :=
  value <$> head (filter (λ i, iname i = Some n) (inputs f)).

(** [form.querySelector('input[type="ty"]')] *)
Definition querySelector_input (ty : string) (f : Form) : option Input :=
  head (filter (λ i, itype i = Some ty) (inputs f)).

(** [form.querySelector('button[type="submit"]')] *)
Definition querySelector_submit (f : Form) : option nat :=
  fst <$> list_find (λ b, btype b = Some "submit") (buttons f).

(** [formData.get(n) || form.querySelector('input[type="ty"]').value] *)
Definition readField (n ty : string) (f : Form) : Completion string :=
  match FormData_get n f with
  | Some (String c s) => Return (String c s)
  | _ =>
      match querySelector_input ty f with
      | Some i => Return (value i)
      | None => Throw (TypeError "Cannot read properties of null (reading 'value')")
      end
  end.

Definition colors : gmap string string :=
  {[ "success" := "#28a745"; "error" := "#dc3545";
     "warning" := "#ffc107"; "info" := "#17a2b8" ]}.

(** [notification.style.backgroundColor = colors[type] || colors.info].
    [colors] is an object literal: a type it does not own is looked up on
    [Object.prototype]. An inherited member is a function or an object,
    hence truthy, and it is what gets assigned; it is no colour, so the
    assignment is dropped and the property keeps its initial empty
    value. Only for a type found nowhere the colour of [info] is taken. *)
Definition backgroundColor (type : string) : string :=
  match colors !! type with
  | Some color => color
  | None =>
      if ProductTabs.truthy (ProductTabs.ObjectPrototype type) then EmptyString
      else "#17a2b8"
  end.

(** The element [showNotification] creates: class by type, the colour by
    type, off screen until animated in. *)
Definition toast (message type : string) : Notification :=
  mkNotification ("notification notification-" +:+ type) message
                 (backgroundColor type) "translateX(100%)" true.

Definition showNotification (message type : string) : Js PLoop unit :=
  let notification := toast message type in
  let* n := gets (λ l, length (notifications (st l))) in
  modify (setSt (λ p, mkPage (form p) (notifications p ++ [notification]) (journal p))) >>
  record (ENotify type) >>
  schedule (AnimateIn n) 100 >>
  schedule (AutoRemove n) 5000 >>
  ret tt.

Definition removeNotification (n : nat) : Js PLoop unit :=
  modify (setNotification n (λ x, mkNotification (nClassName x) (nMessage x)
                                    (nBackgroundColor x) "translateX(100%)" (nAttached x))) >>
  schedule (Detach n) 300 >>
  ret tt.

Definition setTextContent (b : nat) (text : string) : Js PLoop unit :=
  setForm (λ f, mkForm (inputs f)
                  (alter (λ x, mkButton (btype x) text (disabled x)) b (buttons f))) >>
  record (EButtonText text).

Definition setDisabled (b : nat) (flag : bool) : Js PLoop unit :=
  setForm (λ f, mkForm (inputs f)
                  (alter (λ x, mkButton (btype x) (textContent x) flag) b (buttons f))) >>
  record (EButtonDisabled flag).

(** [form.reset()] *)
Definition resetInput (i : Input) : Input :=
  mkInput (itype i) (iname i) (defaultValue i) (defaultValue i).
Definition reset : Js PLoop unit :=
  setForm (λ f, mkForm (resetInput <$> inputs f) (buttons f)) >>
  record EFormReset.

(** The part of [submitConsultationRequest] after the [await]. *)
Definition resumeSubmit (submitBtn : nat) (originalText : string) : Js PLoop unit :=
  showNotification "Заявка отправлена! Мы свяжемся с вами в течение 10 минут." "success" >>
  reset >>
  setTextContent submitBtn originalText >>
  setDisabled submitBtn false.

Definition submitError : Js PLoop unit :=
  showNotification "Произошла ошибка. Попробуйте еще раз." "error".

Definition submitConsultationRequest (data : string * string) : Js PLoop unit :=
  tryCatch
    (let* found := gets (λ l, querySelector_submit (form (st l))) in
     match found with
     | None => throw (TypeError "Cannot read properties of null (reading 'textContent')")
     | Some submitBtn =>
         let* originalText :=
           gets (λ l, default EmptyString
                        (textContent <$> buttons (form (st l)) !! submitBtn)) in
         setTextContent submitBtn "Отправляем..." >>
         setDisabled submitBtn true >>
         schedule (ResumeSubmit submitBtn originalText) 1000 >>
         ret tt
     end)
    (λ _, submitError).

Definition isEmpty (s : string) : bool :=
  match s with EmptyString => true | _ => false end.

Definition handleConsultationSubmit : Js PLoop unit :=
  record EPreventDefault >>
  let* f := gets (λ l, form (st l)) in
  let* name := (λ l, (l, readField "name" "text" f)) in
  let* phone := (λ l, (l, readField "phone" "tel" f)) in
  if isEmpty name || isEmpty phone then
    showNotification "Пожалуйста, заполните все поля" "error"
  else
    submitConsultationRequest (name, phone).

(** The timer callbacks. The rest of the async function runs inside its
    [try]; its statements do not throw. *)
Definition fire (k : Task) (l : PLoop) : PLoop :=
  match k with
  | ResumeSubmit b t => (tryCatch (resumeSubmit b t) (λ _, submitError) l).1
  | AnimateIn n =>
      setNotification n (λ x, mkNotification (nClassName x) (nMessage x)
                                (nBackgroundColor x) "translateX(0)" (nAttached x)) l
  | AutoRemove n => (removeNotification n l).1
  | Detach n =>
      setNotification n (λ x, mkNotification (nClassName x) (nMessage x)
                                (nBackgroundColor x) (nTransform x) false) l
  end.

(** The page while the request is under way: the control shows the
    waiting text and is disabled. *)
Definition sending (b : nat) (p : Page) : Page :=
  mkPage
    (mkForm (inputs (form p))
       (alter (λ x, mkButton (btype x) "Отправляем..." true) b (buttons (form p))))
    (notifications p)
    (journal p ++ [EPreventDefault; EButtonText "Отправляем...";
                   EButtonDisabled true; ESetTimeout 1000]).

(** The page when the request has gone through. *)
Definition sent (b : nat) (p : Page) : Page :=
  mkPage
    (mkForm (resetInput <$> inputs (form p))
       (alter (λ x, mkButton (btype x) (textContent x) false) b (buttons (form p))))
    (notifications p
       ++ [toast "Заявка отправлена! Мы свяжемся с вами в течение 10 минут." "success"])
    (journal p ++ [EPreventDefault; EButtonText "Отправляем...";
                   EButtonDisabled true; ESetTimeout 1000;
                   ENotify "success"; ESetTimeout 100; ESetTimeout 5000;
                   EFormReset]
               ++ [EButtonText (default EmptyString
                                  (textContent <$> buttons (form p) !! b));
                   EButtonDisabled false]).

(** The submit event arrives at [now l]; the loop then runs until
    [horizon]. *)
Definition submitAndWait (fuel : nat) (horizon : Z) (l : PLoop) : option PLoop :=
  runTimers fire fuel (Some horizon) (handleConsultationSubmit l).1.

Definition hasSeverity (type : string) (n : Notification) : bool :=
  bool_decide (nClassName n = "notification notification-" +:+ type).

Definition isResume (t : Timer Task) : bool :=
  match task t with ResumeSubmit _ _ => true | _ => false end.

End FormHandler.

(** ** The application composer *)

Module ElectroPowerApp.

Inductive Widget :=
  | AutoScrollW | MobileNavW | ProductTabsW
  | FormHandlerW | PerformanceOptimizerW | AnalyticsW.

#[global] Instance Widget_eq_dec : EqDecision Widget.
Proof. solve_decision. Defined.

(** The property of [this.components] a widget is stored under. *)
Definition componentKey (w : Widget) : string :=
  match w with
  | AutoScrollW => "autoScroll"
  | MobileNavW => "mobileNav"
  | ProductTabsW => "productTabs"
  | FormHandlerW => "formHandler"
  | PerformanceOptimizerW => "performanceOptimizer"
  | AnalyticsW => "analytics"
  end.

Inductive LogEntry :=
  | ConsoleLog (msg : string)
  | ConsoleError (msg : string) (error : JsError).

Section Composer.
(** [World] is the page. A constructor acts on the page and on the
    console (the one of [Analytics] logs the page view); [construct w]
    is [new W()], which may throw after some of its effects. None of the
    constructors touches the class list of the body or the application
    object. *)
Context {World : Type}.

Record Browser := mkBrowser {
  logged : list LogEntry;             (* the console so far *)
  dom : World
}.

Variable construct : Widget → Js Browser unit.

Record App := mkApp {
  components : gmap string Widget;
  console : list LogEntry;
  bodyLoaded : bool;                  (* body.classList has 'loaded' *)
  world : World
}.

Definition browser (a : App) : Browser := mkBrowser (console a) (world a).

(** [this.components.key = new W();] the property is assigned only when
    the constructor returns. What the constructor did to the page and
    wrote to the console stays in either case. *)
Definition newComponent (w : Widget) : Js App unit :=
  λ a, match construct w (browser a) with
       | (b, Return _) =>
           (mkApp (<[componentKey w := w]> (components a)) (logged b)
                  (bodyLoaded a) (dom b), Return tt)
       | (b, Throw e) =>
           (mkApp (components a) (logged b) (bodyLoaded a) (dom b), Throw e)
       end.

Definition consoleWrite (entry : LogEntry) : Js App unit :=
  modify (λ a, mkApp (components a) (console a ++ [entry]) (bodyLoaded a) (world a)).

Definition initializeComponents : Js App unit :=
  tryCatch
    (newComponent AutoScrollW >>
     newComponent MobileNavW >>
     newComponent ProductTabsW >>
     newComponent FormHandlerW >>
     newComponent PerformanceOptimizerW >>
     newComponent AnalyticsW >>
     consoleWrite (ConsoleLog "✅ Electro Power App initialized successfully") >>
     modify (λ a, mkApp (components a) (console a) true (world a)))
    (λ error,
       consoleWrite (ConsoleError "❌ Error initializing Electro Power App:" error)).

(** A fresh application object on a freshly loaded page:
    [this.components = {}], nothing logged yet. *)
Definition newApp (w : World) : App := mkApp ∅ [] false w.

Definition constructionOrder : list Widget :=
  [AutoScrollW; MobileNavW; ProductTabsW; FormHandlerW;
   PerformanceOptimizerW; AnalyticsW].

(** The constructors run one after the other, up to the first that
    throws. *)
Definition constructAll (ws : list Widget) : Js Browser unit := forEach construct ws.

(** The entry the composer writes, by the completion of the [try]
    block. *)
Definition composerEntry (c : Completion unit) : LogEntry :=
  match c with
  | Return _ => ConsoleLog "✅ Electro Power App initialized successfully"
  | Throw error => ConsoleError "❌ Error initializing Electro Power App:" error
  end.

(** What [this.components] holds once the widgets [ws] are registered. *)
Definition registerAll (ws : list Widget) (m : gmap string Widget) : gmap string Widget :=
  foldl (λ m w, <[componentKey w := w]> m) m ws.

Definition initialized (a : App) (w : Widget) : bool :=
  bool_decide (components a !! componentKey w = Some w).
End Composer.
Arguments App : clear implicits.
Arguments Browser : clear implicits.

(** *** The public method [switchTab(tabName)] *)

(** The name is pasted between the quotes of the attribute selector
    [[data-tab="..."]]. The selector compares the attribute with the name
    as long as the CSS parser reads every character of the name as
    itself inside a quoted string. It does not for:
    - the double quote (34), which ends the string, and the backslash
      (92), which starts an escape;
    - a line feed (10), a form feed (12) and a carriage return (13),
      which are all read as a line break and end the string in error;
    - U+0000 (0) and a surrogate that is not part of a pair, which are
      read as U+FFFD.
    Strings are kept as their UTF-8 bytes; a lone surrogate would show
    as the byte 237 followed by a byte from 160 on. *)
Definition cssSpecial (c : Ascii.ascii) : bool :=
  bool_decide (Ascii.nat_of_ascii c ∈ [0; 10; 12; 13; 34; 92]%nat).
Definition startsSurrogate (c : Ascii.ascii) (rest : string) : bool :=
  match rest with
  | String c' _ =>
      bool_decide (Ascii.nat_of_ascii c = 237)
      && bool_decide (160 ≤ Ascii.nat_of_ascii c')
  | EmptyString => false
  end.
Fixpoint selectorSafe (s : string) : bool :=
  match s with
  | EmptyString => true
  | String c s' =>
      negb (cssSpecial c) && negb (startsSurrogate c s') && selectorSafe s'
  end.

(** [productTabs] is [this.components.productTabs], undefined when the
    widget was not constructed. The lookup is the one of the selector
    for the names [selectorSafe] accepts; what the parser makes of the
    other names is not modelled. *)
Definition switchTab (productTabs : option ProductTabs.ProductTabs)
    (tabName : string) : Js Dom.Document unit :=
  let* tabButton := gets (Dom.querySelector (Dom.ByDataTab tabName)) in
  match tabButton with
  | Some b =>
      match productTabs with
      | Some this => ProductTabs.switchTab this b
      | None => ret tt
      end
  | None => ret tt
  end.

(** *** Sample inputs *)

(** Only the first constructor throws. *)
Definition onlyAutoScrollThrows (w : Widget) : Js (Browser unit) unit :=
  match w with
  | AutoScrollW => throw (OtherError "no document body")
  | _ => ret tt
  end.

(** [trackPageView]: the constructor of [Analytics] logs the path of
    the page. *)
Definition trackPageView (pathname : string) : Js (Browser unit) unit :=
  modify (λ b, mkBrowser (logged b ++ [ConsoleLog ("Page view tracked: " +:+ pathname)])
                         (dom b)).

(** Every constructor returns, the last one after logging. *)
Definition allReturn (w : Widget) : Js (Browser unit) unit :=
  match w with
  | AnalyticsW => trackPageView "/index.html"
  | _ => ret tt
  end.

(** The constructor of [FormHandler] throws; the three before it
    return. *)
Definition formHandlerThrows (w : Widget) : Js (Browser unit) unit :=
  match w with
  | FormHandlerW => throw (TypeError "document.querySelector is not a function")
  | AnalyticsW => trackPageView "/index.html"
  | _ => ret tt
  end.

(** A page where an element that is not a tab control carries a
    [data-tab] attribute. *)
Definition pageWithPanel : list Dom.Element :=
  [Dom.mkElement ["tab-button"; "active"] (Some "scooters") [];
   Dom.mkElement ["tab-button"] (Some "bikes") [];
   Dom.mkElement ["tab-panel"] (Some "sale") [];
   Dom.mkElement ["models-grid"] None [Dom.mkNode "product-card" "bike card"]].

End ElectroPowerApp.

(** ** Shapes of traces and logs *)

Module Traces.
Local Open Scope Z_scope.

Section Shapes.
Context {Args : Type}.

(** A burst after an activation at [t]: the activations follow in time
    order, each less than [wait] ms after the one before. *)
Fixpoint burstFrom (wait t : Z) (trace : list (Z * Args)) : Prop :=
  match trace with
  | [] => True
  | (t', _) :: trace' => t <= t' ∧ t' - t < wait ∧ burstFrom wait t' trace'
  end.

(** Consecutive executions are at least [limit] ms apart. *)
Fixpoint spaced (limit : Z) (log : list (Z * Args)) : Prop :=
  match log with
  | (t, _) :: (((t', _) :: _) as rest) => limit <= t' - t ∧ spaced limit rest
  | _ => True
  end.

(** The stamp the throttle keeps is the time of the last execution. *)
Definition stamped (epoch : Z)
    (l : EventLoop.Loop (Utils.ThrottleTask Args) (Utils.ThrottleSt Args)) : Prop :=
  match last (Utils.tlog (EventLoop.st l)) with
  | Some (t, _) => Utils.lastRan (EventLoop.st l) = Some (epoch + t)
  | None => Utils.lastRan (EventLoop.st l) = None
  end.

(** The invariant of a throttled run: the clock facts, the spacing of
    the log and the stamp. *)
Definition paced (limit epoch : Z)
    (l : EventLoop.Loop (Utils.ThrottleTask Args) (Utils.ThrottleSt Args)) : Prop :=
  ThrottleClock.Inv epoch l
  ∧ spaced limit (Utils.tlog (EventLoop.st l))
  ∧ stamped epoch l.

(** The debounce wrapper in the middle of a burst: one timer pending,
    set at the latest activation. *)
Definition armed (wait t : Z) (i id : nat) (a : Args) (log : list (Z * Args))
    : EventLoop.Loop (Utils.DebounceTask Args) (Utils.DebounceSt Args) :=
  EventLoop.mkLoop t (S i)
    [EventLoop.mkTimer (S id) (t + wait) (Utils.Later a)]
    (Utils.mkDebounce (Some (S id)) log).
End Shapes.
End Traces.

(** ** The life of a toast and the weight of the timer queue *)

Module Toasts.
Import EventLoop FormHandler.

(** A toast slid in, slid out, and taken out of the document. *)
Definition slidIn (x : Notification) : Notification :=
  mkNotification (nClassName x) (nMessage x) (nBackgroundColor x)
                 "translateX(0)" (nAttached x).
Definition slidOut (x : Notification) : Notification :=
  mkNotification (nClassName x) (nMessage x) (nBackgroundColor x)
                 "translateX(100%)" (nAttached x).
Definition detached (x : Notification) : Notification :=
  mkNotification (nClassName x) (nMessage x) (nBackgroundColor x)
                 (nTransform x) false.

(** A bound on the callbacks a pending callback can still cause: the
    rest of a submission starts a toast, whose removal starts the
    detaching. *)
Definition taskWeight (k : Task) : nat :=
  match k with
  | ResumeSubmit _ _ => 4
  | AutoRemove _ => 2
  | AnimateIn _ | Detach _ => 1
  end.
Definition weight (ts : list (Timer Task)) : nat :=
  sum_list_with (λ t, taskWeight (task t)) ts.

(** The timers a callback starts. *)
Definition spawned (k : Task) (l : PLoop) : list (Timer Task) :=
  match k with
  | ResumeSubmit _ _ =>
      [mkTimer (nextId l) (now l + 100) (AnimateIn (length (notifications (st l))));
       mkTimer (S (nextId l)) (now l + 5000)
               (AutoRemove (length (notifications (st l))))]
  | AutoRemove n => [mkTimer (nextId l) (now l + 300) (Detach n)]
  | AnimateIn _ | Detach _ => []
  end.
End Toasts.

(** ** Mobile navigation *)

Module MobileNav.
Import Dom.

(** A [span] of the menu toggle, with the two inline styles the script
    sets. *)
Record Span := mkSpan { transform : string; opacity : string }.

(** The page: the document, and the [span] elements inside the menu
    toggle in document order ([menuToggle.querySelectorAll('span')]). *)
Record NavPage := mkNavPage { doc : list Element; spans : list Span }.

(** The widget object. A hook the markup lacks is null. *)
Record MobileNav := mkMobileNav {
  menuToggle : option nat;
  navList : option nat;
  navLinks : list nat
}.

(** [el.classList.toggle(c)] *)
Definition classList_toggle (c : string) (e : Element) : Element :=
  if contains c e then classList_remove c e else classList_add c e.

(** [el.classList.op(...)] on a hook that may be null. *)
Definition onClassList (el : option nat) (op : Element → Element) : Js NavPage unit :=
  match el with
  | Some i => modify (λ p, mkNavPage (alter op i (doc p)) (spans p))
  | None => throw (TypeError "Cannot read properties of null (reading 'classList')")
  end.

(** [spans[i].style.prop = v]; [spans[i]] is undefined out of range. *)
Definition onSpan (i : nat) (f : Span → Span) : Js NavPage unit :=
  let* n := gets (λ p, length (spans p)) in
  if decide (i < n) then modify (λ p, mkNavPage (doc p) (alter f i (spans p)))
  else throw (TypeError "Cannot read properties of undefined (reading 'style')").

Definition setTransform (v : string) (x : Span) : Span := mkSpan v (opacity x).
Definition setOpacity (v : string) (x : Span) : Span := mkSpan (transform x) v.

Definition isOpen (el : option nat) (p : NavPage) : bool :=
  match el ≫= λ i, doc p !! i with
  | Some e => contains "active" e
  | None => false
  end.

Definition animateHamburger (this : MobileNav) : Js NavPage unit :=
  match menuToggle this with
  | None => throw (TypeError "Cannot read properties of null (reading 'querySelectorAll')")
  | Some _ =>
      let* active := gets (isOpen (menuToggle this)) in
      if active then
        onSpan 0 (setTransform "rotate(45deg) translate(5px, 5px)") >>
        onSpan 1 (setOpacity "0") >>
        onSpan 2 (setTransform "rotate(-45deg) translate(7px, -6px)")
      else
        onSpan 0 (setTransform "rotate(0deg) translate(0px, 0px)") >>
        onSpan 1 (setOpacity "1") >>
        onSpan 2 (setTransform "rotate(0deg) translate(0px, 0px)")
  end.

Definition toggleMenu (this : MobileNav) : Js NavPage unit :=
  onClassList (navList this) (classList_toggle "active") >>
  onClassList (menuToggle this) (classList_toggle "active") >>
  animateHamburger this.

Definition closeMenu (this : MobileNav) : Js NavPage unit :=
  onClassList (navList this) (classList_remove "active") >>
  onClassList (menuToggle this) (classList_remove "active") >>
  animateHamburger this.

(** [init]: look the hooks up; [bindEvents] binds the listeners only
    when toggle and list both exist (see [clickToggle], [clickNavLink]). *)
Definition init : Js NavPage MobileNav :=
  let* t := gets (λ p, querySelector (ByClasses ["mobile-menu-toggle"]) (doc p)) in
  let* n := gets (λ p, querySelector (ByClasses ["nav-list"]) (doc p)) in
  let* links := gets (λ p, querySelectorAll (ByClasses ["nav-link"]) (doc p)) in
  ret (mkMobileNav t n links).

Definition bound (this : MobileNav) : bool :=
  match menuToggle this, navList this with
  | Some _, Some _ => true
  | _, _ => false
  end.

(** A click on the menu toggle, and a click on a navigation link. *)
Definition clickToggle (this : MobileNav) : Js NavPage unit :=
  if bound this then toggleMenu this else ret tt.
Definition clickNavLink (this : MobileNav) (el : nat) : Js NavPage unit :=
  if bound this && bool_decide (el ∈ navLinks this) then closeMenu this else ret tt.

(** The public [openMobileMenu()]:
    [this.components.mobileNav?.toggleMenu()]. *)
Definition openMobileMenu (mobileNav : option MobileNav) : Js NavPage unit :=
  match mobileNav with
  | Some this => toggleMenu this
  | None => ret tt
  end.

(** The two shapes of the hamburger: a cross when the menu is open,
    three bars when it is closed. Further spans keep their style. *)
Definition hamburger (open : bool) (ss : list Span) : list Span :=
  if open then
    alter (setTransform "rotate(-45deg) translate(7px, -6px)") 2
      (alter (setOpacity "0") 1
         (alter (setTransform "rotate(45deg) translate(5px, 5px)") 0 ss))
  else
    alter (setTransform "rotate(0deg) translate(0px, 0px)") 2
      (alter (setOpacity "1") 1
         (alter (setTransform "rotate(0deg) translate(0px, 0px)") 0 ss)).
End MobileNav.

(** ** Scroll animation *)

Module AutoScroll.
Import Dom.

(** The classes of the selector list of [animateOnScroll]. *)
Definition animatedSelectors : list string :=
  ["section-title"; "category-card"; "payment-card"; "team-member"; "delivery-item"].

(** An element matches a selector list [.c1, .c2, ...] when it has one
    of the classes. *)
Definition matchesAny (cs : list string) (e : Element) : bool :=
  existsb (λ c, contains c e) cs.

Fixpoint allAnyFrom (i : nat) (cs : list string) (doc : list Element) : list nat :=
  match doc with
  | [] => []
  | e :: doc' =>
      if matchesAny cs e then i :: allAnyFrom (S i) cs doc'
      else allAnyFrom (S i) cs doc'
  end.

Section Viewport.
(** [utils.isInViewport(element)] at the current scroll position, by
    element: the geometry is not modelled. *)
Variable isInViewport : nat → bool.

(** The body of the [forEach] callback for the element [el]. *)
Definition animateElement (el : nat) : Js (list Element) unit :=
  let* animated :=
    gets (λ doc, match doc !! el with
                 | Some e => contains "animated" e
                 | None => false
                 end) in
  if isInViewport el && negb animated then
    modify (alter (λ e, classList_add "animated" (classList_add "fade-in-up" e)) el)
  else ret tt.

Definition animateOnScroll : Js (list Element) unit :=
  let* elements := gets (allAnyFrom 0 animatedSelectors) in
  forEach animateElement elements.

(** [handleResize] only animates. *)
Definition handleResize : Js (list Element) unit := animateOnScroll.

(** What the callback does to its element, and what [animateOnScroll]
    does to the element at index [j]. *)
Definition step (el : nat) (e : Element) : Element :=
  if isInViewport el && negb (contains "animated" e)
  then classList_add "animated" (classList_add "fade-in-up" e)
  else e.
Definition animateElem (j : nat) (e : Element) : Element :=
  if matchesAny animatedSelectors e && isInViewport j && negb (contains "animated" e)
  then classList_add "animated" (classList_add "fade-in-up" e)
  else e.
End Viewport.
End AutoScroll.

(** * Part II: properties *)

(** ** The event loop *)

Module EventLoopFacts.
Import EventLoop.
Local Open Scope Z_scope.

Section Facts.
Context {Task St : Type}.
Variable fire : Task → Loop Task St → Loop Task St.
Variable Args : Type.
Variable call : Args → Loop Task St → Loop Task St.

(** A delay below 2^31 ms is kept as it is. *)
Lemma timerDelay_small (delay : Z) :
  0 <= delay < 2147483648 → timerDelay delay = delay.
Proof.
  intros H. unfold timerDelay, toLong.
  rewrite Z.mod_small by lia. lia.
Qed.

Lemma timerDelay_nonneg (delay : Z) : 0 <= timerDelay delay.
Proof. unfold timerDelay. lia. Qed.

Lemma earliest_None (ts : list (Timer Task)) : earliest ts = None → ts = [].
Proof.
  destruct ts as [|t ts]; [done|]. simpl.
  destruct (earliest ts) as [u|]; [|done]. by destruct (due u <? due t).
Qed.

Lemma earliest_elem_of (ts : list (Timer Task)) t : earliest ts = Some t → t ∈ ts.
Proof.
  revert t. induction ts as [|u ts IH]; intros t; simpl; [done|].
  destruct (earliest ts) as [v|].
  - destruct (due v <? due u); intros [= <-]; [|left].
    right. by apply IH.
  - intros [= <-]. left.
Qed.

(** One step of the loop, when a single timer is pending and due. *)
Lemma runTimers_single n h l t :
  pending l = [t] → reached h t = true →
  runTimers fire (S n) h l
  = runTimers fire n h (fire (task t) (mkLoop (due t) (nextId l) [] (st l))).
Proof.
  intros Hp Hr. simpl. rewrite Hp. simpl. rewrite Hr.
  by rewrite filter_cons_False, filter_nil by (by intros ?).
Qed.

(** The loop stops at the horizon when the next timer is due later. *)
Lemma runTimers_not_reached n h l t :
  earliest (pending l) = Some t → reached h t = false →
  runTimers fire n h l = Some (settle h l).
Proof. intros He Hr. destruct n; simpl; by rewrite He, Hr. Qed.

(** A run that ends keeps its result when given more fuel. *)
Lemma runTimers_more_fuel n m h l l' :
  runTimers fire n h l = Some l' → (n ≤ m)%nat → runTimers fire m h l = Some l'.
Proof.
  revert m l. induction n as [|n IH]; intros m l Hrun Hle.
  - destruct m as [|m]; [done|].
    simpl in *. destruct (earliest (pending l)) as [t|]; [|done].
    destruct (reached h t); done.
  - destruct m as [|m]; [lia|].
    simpl in *. destruct (earliest (pending l)) as [t|]; [|done].
    destruct (reached h t); [|done].
    apply IH; [done|lia].
Qed.

Lemma runTrace_more_fuel n m tr l l' :
  runTrace fire Args call n tr l = Some l' → (n ≤ m)%nat →
  runTrace fire Args call m tr l = Some l'.
Proof.
  revert l. induction tr as [|[t a] tr IH]; intros l Hrun Hle; simpl in *.
  - eauto using runTimers_more_fuel.
  - destruct (runTimers fire n (Some t) l) as [l1|] eqn:E; [|done].
    rewrite (runTimers_more_fuel _ _ _ _ _ E Hle). by apply IH.
Qed.

(** When the loop stops without a horizon, no timer is left. *)
Lemma runTimers_quiescent n l l' :
  runTimers fire n None l = Some l' → pending l' = [].
Proof.
  revert l. induction n as [|n IH]; intros l; simpl;
    destruct (earliest (pending l)) as [t|] eqn:E; simpl; try done.
  - intros [= <-]. by apply earliest_None.
  - apply IH.
  - intros [= <-]. by apply earliest_None.
Qed.

Lemma runTrace_quiescent n tr l l' :
  runTrace fire Args call n tr l = Some l' → pending l' = [].
Proof.
  revert l. induction tr as [|[t a] tr IH]; intros l; simpl.
  - apply runTimers_quiescent.
  - destruct (runTimers fire n (Some t) l); [apply IH|done].
Qed.
End Facts.
End EventLoopFacts.

(** ** The throttle does not depend on the origin of the wall clock

    [lastRan] holds values of [Date.now()]. Moving the origin of the
    clock by [d] moves them by [d] and changes nothing else, as long as
    the clock stays positive (a [lastRan] of zero reads as "never ran"). *)

Module ThrottleShift.
Import EventLoop Utils EventLoopFacts ThrottleClock.
Local Open Scope Z_scope.

Section Shift.
Context {Args : Type}.
Variables (limit e d : Z).
Hypothesis e_pos : 0 < e.
Hypothesis ed_pos : 0 < e + d.

Local Abbreviation shift := (@ThrottleClock.shift Args d).
Local Abbreviation Inv := (@ThrottleClock.Inv Args e).

Lemma Forall_filter_keep {A} (P Q : A → Prop) `{∀ x, Decision (Q x)} l :
  Forall P l → Forall P (filter Q l).
Proof.
  rewrite !Forall_forall. intros HP x [_ Hx]%list_elem_of_filter. by apply HP.
Qed.

Lemma runAndStamp_shift a l :
  runAndStamp (e + d) a (shift l) = shift (runAndStamp e a l).
Proof.
  destruct l as [n i p [lf lr lg]].
  unfold runAndStamp, tfunc, shift, setSt, shiftSt, DateNow; simpl.
  do 3 f_equal. lia.
Qed.

Lemma runAndStamp_inv a l : Inv l → Inv (runAndStamp e a l).
Proof.
  intros [Hn Hd Hr]. destruct l as [n i p [lf lr lg]]; simpl in *.
  split; simpl; [done|done|]. unfold DateNow; simpl. intros r [= <-]. lia.
Qed.

Lemma throttled_shift a l :
  Inv l → throttled limit (e + d) a (shift l) = shift (throttled limit e a l).
Proof.
  intros [Hn Hd Hr]. destruct l as [n i p [lf [r|] lg]]; simpl in *.
  - specialize (Hr r eq_refl).
    unfold throttled; simpl.
    destruct (Z.eqb_spec (r + d) 0) as [?|_]; [lia|].
    destruct (Z.eqb_spec r 0) as [?|_]; [lia|]. simpl.
    unfold DateNow, shift, setSt, shiftSt.
    destruct lf; simpl;
      by replace (limit - (e + d + n - (r + d))) with (limit - (e + n - r)) by lia.
  - apply (runAndStamp_shift a (mkLoop n i p (mkThrottle lf None lg))).
Qed.

Lemma throttled_inv a l : Inv l → Inv (throttled limit e a l).
Proof.
  intros HI. pose proof HI as [Hn Hd Hr].
  destruct l as [n i p [lf [r|] lg]]; simpl in *.
  - unfold throttled; simpl. specialize (Hr r eq_refl).
    destruct (Z.eqb_spec r 0) as [?|_]; [lia|]. simpl.
    destruct lf; simpl; split; simpl; try done.
    + apply Forall_app; split; [by apply Forall_filter_keep|].
      apply Forall_singleton; simpl. unfold timerDelay. lia.
    + by intros ? [= <-].
    + apply Forall_app; split; [done|].
      apply Forall_singleton; simpl. unfold timerDelay. lia.
    + by intros ? [= <-].
  - by apply (runAndStamp_inv a (mkLoop n i p (mkThrottle lf None lg))).
Qed.

Lemma trailing_shift k l :
  trailing limit (e + d) k (shift l) = shift (trailing limit e k l).
Proof.
  destruct k as [a], l as [n i p [lf [r|] lg]]; unfold trailing; simpl; [|done].
  unfold DateNow; simpl.
  replace (e + d + n - (r + d)) with (e + n - r) by lia.
  destruct (limit <=? e + n - r); [|done].
  apply (runAndStamp_shift a (mkLoop n i p (mkThrottle lf (Some r) lg))).
Qed.

Lemma trailing_inv k l : Inv l → Inv (trailing limit e k l).
Proof.
  intros HI. destruct k as [a]. unfold trailing.
  destruct (lastRan (st l)); [|done].
  destruct (limit <=? _); [by apply runAndStamp_inv|done].
Qed.

Lemma settle_inv h l : Inv l → Inv (settle h l).
Proof.
  intros [Hn Hd Hr]. destruct h as [h|]; [|done].
  split; simpl; [lia|done|done].
Qed.

(** The timers run the same way on both sides, and keep the invariant. *)
Lemma runTimers_shift n h l :
  Inv l →
  runTimers (trailing limit (e + d)) n h (shift l)
    = shift <$> runTimers (trailing limit e) n h l
  ∧ ∀ l', runTimers (trailing limit e) n h l = Some l' → Inv l'.
Proof.
  revert l. induction n as [|n IH]; intros l HI; simpl.
  - destruct (earliest (pending l)) as [t|]; [destruct (reached h t)|].
    + done.
    + split; [by destruct h|]. intros ? [= <-]. by apply settle_inv.
    + split; [by destruct h|]. intros ? [= <-]. by apply settle_inv.
  - destruct (earliest (pending l)) as [t|] eqn:E; [destruct (reached h t)|].
    + set (l1 := mkLoop (due t) (nextId l)
                   (filter (λ u, tid u ≠ tid t) (pending l)) (st l)).
      assert (Inv l1) as HI1.
      { destruct HI as [Hn Hd Hr]. split; simpl; [|by apply Forall_filter_keep|done].
        apply earliest_elem_of in E.
        by apply (proj1 (Forall_forall _ _) Hd). }
      destruct (IH (trailing limit e (task t) l1)) as [IH1 IH2];
        [by apply trailing_inv|].
      rewrite <- trailing_shift in IH1. done.
    + split; [by destruct h|]. intros ? [= <-]. by apply settle_inv.
    + split; [by destruct h|]. intros ? [= <-]. by apply settle_inv.
Qed.

Lemma runTrace_shift n tr l :
  Inv l →
  runTrace (trailing limit (e + d)) Args (throttled limit (e + d)) n tr (shift l)
    = shift <$> runTrace (trailing limit e) Args (throttled limit e) n tr l.
Proof.
  revert l. induction tr as [|[t a] tr IH]; intros l HI; simpl.
  - by apply runTimers_shift.
  - destruct (runTimers_shift n (Some t) l HI) as [-> HI'].
    destruct (runTimers (trailing limit e) n (Some t) l) as [l'|]; [|done].
    simpl. rewrite throttled_shift by eauto.
    apply IH, throttled_inv. eauto.
Qed.

Lemma throttleRun_shift n tr :
  throttleRun limit (e + d) n tr = shift <$> throttleRun limit e n tr.
Proof.
  unfold throttleRun, throttle; simpl.
  change (start (mkThrottle None None []))
    with (shift (start (mkThrottle None None []))) at 1.
  apply runTrace_shift. split; simpl; [lia|constructor|done].
Qed.
End Shift.
End ThrottleShift.

(** ** Traces of the wrappers *)

Module UtilsFacts.
Import EventLoop Utils EventLoopFacts.
Local Open Scope Z_scope.

Example debounce_immediate_trace :
  (λ l, dlog (st l)) <$>
    debounceRun 100 true 5 [(0, "a"); (10, "b"); (50, "c"); (200, "d")]
  = Some [(0, "a"); (200, "d")].
Proof. reflexivity. Qed.

(** With [Date.now()] equal to 0 at the first call, [lastRan] stays falsy
    and the second call runs at once as well. *)
Example throttle_trace_epoch0 :
  (λ l, tlog (st l)) <$>
    throttleRun 100 0 5 [(0, "a"); (10, "b"); (50, "c"); (140, "d")]
  = Some [(0, "a"); (10, "b"); (110, "c"); (210, "d")].
Proof. reflexivity. Qed.

(** The trace of C1 with the clock origin at 1. *)
Lemma throttle_trace_origin1 {Args} (a0 a1 a2 a3 : Args) :
  (λ l, (pending l, tlog (st l))) <$>
    throttleRun 100 1 1 [(0, a0); (10, a1); (50, a2); (140, a3)]
  = Some ([], [(0, a0); (100, a2); (200, a3)]).
Proof. reflexivity. Qed.

(** C1, as stated, fails: with [limit = 100] and activations at 0, 10, 50
    and 140 ms the callback has run three times when the timers have
    drained (at 0, 100 and 200 ms), not at most twice. *)
Lemma throttle_trace_runs_three_times :
  ∃ l, throttleRun 100 1700000000000 1
         [(0, "a0"); (10, "a10"); (50, "a50"); (140, "a140")] = Some l
       ∧ pending l = []
       ∧ tlog (st l) = [(0, "a0"); (100, "a50"); (200, "a140")]
       ∧ ¬ (length (tlog (st l)) ≤ 2)%nat.
Proof.
  eexists. split; [reflexivity|]. simpl. repeat split. lia.
Qed.

(** C1 (amended): for [limit = 100] and activations at 0, 10, 50 and
    140 ms, on any positive wall clock and with any fuel that lets the
    loop finish, the callback runs at 0 ms with the first arguments, at
    100 ms with the arguments of the latest attempt of the first window
    (the one at 50 ms), and at 200 ms with the arguments of the last
    activation: three executions in all, two of them by 140 ms, after
    which no timer is pending. *)
Theorem throttle_trace_100 {Args} (a0 a1 a2 a3 : Args) (epoch : Z) (fuel : nat) :
  0 < epoch →
  ∃ l, throttleRun 100 epoch (S fuel) [(0, a0); (10, a1); (50, a2); (140, a3)] = Some l
       ∧ pending l = []
       ∧ tlog (st l) = [(0, a0); (100, a2); (200, a3)]
       ∧ length (tlog (st l)) = 3%nat
       ∧ length (filter (λ x, x.1 <= 140) (tlog (st l))) = 2%nat.
Proof.
  intros Hpos.
  pose proof (throttle_trace_origin1 a0 a1 a2 a3) as H1.
  destruct (throttleRun 100 1 1 _) as [l1|] eqn:E1; [|done].
  injection H1 as Hp Hl.
  assert (throttleRun 100 1 (S fuel) [(0, a0); (10, a1); (50, a2); (140, a3)]
          = Some l1) as E.
  { eapply runTrace_more_fuel; [exact E1|lia]. }
  replace epoch with (1 + (epoch - 1)) by lia.
  rewrite (ThrottleShift.throttleRun_shift 100 1 (epoch - 1)) by lia.
  rewrite E. simpl. eexists. split; [reflexivity|].
  simpl. rewrite Hp, Hl. done.
Qed.

Lemma throttle_trace_100_witness :
  ∃ l, throttleRun 100 1700000000000 1
         [(0, "a0"); (10, "a10"); (50, "a50"); (140, "a140")] = Some l
       ∧ pending l = []
       ∧ tlog (st l) = [(0, "a0"); (100, "a50"); (200, "a140")]
       ∧ length (tlog (st l)) = 3%nat
       ∧ length (filter (λ x, x.1 <= 140) (tlog (st l))) = 2%nat.
Proof. apply (throttle_trace_100 "a0" "a10" "a50" "a140" 1700000000000 0). lia. Defined.

(** C7: [debounce] with [wait = 100] and [immediate = false], activated at
    0, 10 and 50 ms and not again: the callback runs exactly once, at
    150 ms (100 ms after the last activation), with the arguments of the
    last activation, and no timer is left. *)
Theorem debounce_trace_100 {Args} (a0 a1 a2 : Args) (fuel : nat) :
  ∃ l, debounceRun 100 false (S fuel) [(0, a0); (10, a1); (50, a2)] = Some l
       ∧ pending l = []
       ∧ dlog (st l) = [(150, a2)].
Proof.
  assert (∃ l, debounceRun 100 false 1 [(0, a0); (10, a1); (50, a2)] = Some l
               ∧ pending l = [] ∧ dlog (st l) = [(150, a2)]) as (l & E & Hl).
  { eexists. split; [reflexivity|done]. }
  exists l. split; [|done].
  eapply runTrace_more_fuel; [exact E|lia].
Qed.

(** With a wait of 2^31 ms the delay wraps to a negative [long] and the
    timer is due at once: every activation of the burst runs the
    callback. *)
Example debounce_wait_overflow :
  (λ l, dlog (st l)) <$>
    debounceRun 2147483648 false 5 [(0, "a"); (10, "b"); (50, "c")]
  = Some [(0, "a"); (10, "b"); (50, "c")].
Proof. reflexivity. Qed.

End UtilsFacts.

(** ** The document *)

Module DomFacts.
Import Dom.

Lemma contains_remove_ne c a e :
  c ≠ a → contains c (classList_remove a e) = contains c e.
Proof.
  intros Hne. unfold contains, classList_remove; simpl.
  apply bool_decide_ext. rewrite list_elem_of_filter. tauto.
Qed.

Lemma contains_remove_eq a e : contains a (classList_remove a e) = false.
Proof.
  unfold contains, classList_remove; simpl.
  apply bool_decide_eq_false. rewrite list_elem_of_filter. by intros [? _].
Qed.

Lemma contains_add_ne c a e :
  c ≠ a → contains c (classList_add a e) = contains c e.
Proof.
  intros Hne. unfold classList_add. destruct (contains a e); [done|].
  unfold contains; simpl. apply bool_decide_ext.
  rewrite elem_of_app, list_elem_of_singleton. tauto.
Qed.

Lemma contains_add_eq a e : contains a (classList_add a e) = true.
Proof.
  unfold classList_add. destruct (contains a e) eqn:E; [done|].
  unfold contains; simpl. apply bool_decide_eq_true.
  rewrite elem_of_app, list_elem_of_singleton. by right.
Qed.

Lemma remove_remove a e :
  classList_remove a (classList_remove a e) = classList_remove a e.
Proof.
  unfold classList_remove; simpl. f_equal.
  induction (classList e) as [|x l IH]; [done|].
  rewrite filter_cons. case_decide; [|done].
  rewrite filter_cons_True by done. by rewrite IH.
Qed.

Lemma add_add a e : classList_add a (classList_add a e) = classList_add a e.
Proof.
  unfold classList_add at 1. by rewrite contains_add_eq.
Qed.

Lemma remove_add a e :
  classList_remove a (classList_add a e) = classList_remove a e.
Proof.
  unfold classList_add. destruct (contains a e); [done|].
  unfold classList_remove; simpl. f_equal.
  rewrite filter_app, filter_cons_False by (by intros ?).
  rewrite filter_nil. apply app_nil_r.
Qed.

Lemma forallb_contains_ext cs e e' :
  (∀ c, c ∈ cs → contains c e' = contains c e) →
  forallb (λ c, contains c e') cs = forallb (λ c, contains c e) cs.
Proof.
  induction cs as [|c cs IH]; intros H; simpl; [done|].
  rewrite H by left. f_equal. apply IH. intros; apply H. by right.
Qed.

Lemma matches_remove sel e :
  untouched sel → matches sel (classList_remove "active" e) = matches sel e.
Proof.
  destruct sel as [cs|v]; simpl; [|done]. intros Hcs.
  apply forallb_contains_ext. intros c Hc. apply contains_remove_ne.
  by intros ->.
Qed.

Lemma matches_add sel e :
  untouched sel → matches sel (classList_add "active" e) = matches sel e.
Proof.
  destruct sel as [cs|v]; simpl.
  - intros Hcs. apply forallb_contains_ext. intros c Hc.
    apply contains_add_ne. by intros ->.
  - intros _. unfold classList_add. by destruct (contains _ e).
Qed.

Lemma findFrom_imap sel (F : nat → Element → Element) doc i :
  (∀ j e, matches sel (F j e) = matches sel e) →
  findFrom i sel (imap F doc) = findFrom i sel doc.
Proof.
  revert F i. induction doc as [|e doc IH]; intros F i HF; [done|].
  simpl. rewrite HF. destruct (matches sel e); [done|].
  apply IH. intros j e'. apply HF.
Qed.

Lemma alter_imap (f : Element → Element) g (doc : list Element) :
  alter f g doc = imap (λ j, if decide (j = g) then f else id) doc.
Proof.
  apply list_eq; intros j. rewrite list_lookup_alter, list_lookup_imap.
  case_decide; [subst|]; case_decide; try done; try congruence.
  by destruct (doc !! j).
Qed.

Lemma findFrom_alter sel f g doc i :
  (∀ e, matches sel (f e) = matches sel e) →
  findFrom i sel (alter f g doc) = findFrom i sel doc.
Proof.
  intros Hf. rewrite alter_imap. apply findFrom_imap.
  intros j e. by case_decide.
Qed.

Lemma findFrom_Some sel doc i g :
  findFrom i sel doc = Some g →
  i ≤ g ∧ ∃ e, doc !! (g - i) = Some e ∧ matches sel e = true.
Proof.
  revert i. induction doc as [|e doc IH]; intros i; simpl; [done|].
  destruct (matches sel e) eqn:E.
  - intros [= <-]. split; [lia|]. exists e. by rewrite Nat.sub_diag.
  - intros [Hle (e' & He' & Hm)]%IH. split; [lia|]. exists e'.
    by replace (g - i) with (S (g - S i)) by lia.
Qed.

Lemma querySelector_Some sel (doc : list Element) g :
  querySelector sel doc = Some g →
  ∃ e, doc !! g = Some e ∧ matches sel e = true.
Proof.
  intros [_ (e & He & Hm)]%findFrom_Some. rewrite Nat.sub_0_r in He. eauto.
Qed.

Lemma findFrom_None sel doc i :
  findFrom i sel doc = None ↔ ∀ e, e ∈ doc → matches sel e = false.
Proof.
  revert i. induction doc as [|e doc IH]; intros i; simpl.
  - split; [|done]. intros _ e He. by apply elem_of_nil in He.
  - destruct (matches sel e) eqn:E.
    + split; [done|]. intros H. specialize (H e). rewrite E in H.
      by discriminate H; left.
    + rewrite IH. split.
      * intros H e' [->|?]%elem_of_cons; auto.
      * intros H e' He'. apply H. by right.
Qed.

Lemma allFrom_ge sel doc i j : j ∈ allFrom i sel doc → i ≤ j.
Proof.
  revert i. induction doc as [|e doc IH]; intros i; simpl.
  - intros H. by apply elem_of_nil in H.
  - destruct (matches sel e).
    + intros [->|H]%elem_of_cons; [lia|]. apply IH in H. lia.
    + intros H. apply IH in H. lia.
Qed.

Lemma allFrom_NoDup sel doc i : NoDup (allFrom i sel doc).
Proof.
  revert i. induction doc as [|e doc IH]; intros i; simpl; [constructor|].
  destruct (matches sel e); [|done].
  apply NoDup_cons. split; [|done]. intros H. apply allFrom_ge in H. lia.
Qed.

Lemma querySelectorAll_NoDup sel (doc : list Element) :
  NoDup (querySelectorAll sel doc).
Proof. apply allFrom_NoDup. Qed.

Lemma allFrom_lt sel doc i j : j ∈ allFrom i sel doc → j < i + length doc.
Proof.
  revert i. induction doc as [|e doc IH]; intros i; simpl.
  - intros H. by apply elem_of_nil in H.
  - destruct (matches sel e).
    + intros [->|H]%elem_of_cons; [lia|]. apply IH in H. lia.
    + intros H. apply IH in H. lia.
Qed.

End DomFacts.

(** ** Product tabs *)

Module ProductTabsFacts.
Import Dom ProductTabs DomFacts.

Lemma forEach_modify {S A} (f : A → S → S) (l : list A) (s : S) :
  forEach (λ x, modify (f x)) l s = (foldl (λ s x, f x s) s l, Return tt).
Proof.
  revert s. induction l as [|x l IH]; intros s; [done|].
  simpl. unfold bind, modify at 1. simpl. apply IH.
Qed.

(** *** The product table *)

Lemma productData_known k :
  k ∈ knownCategories → ∃ ps, productData !! k = Some ps ∧ length ps = 3.
Proof.
  unfold knownCategories. rewrite !elem_of_cons, elem_of_nil.
  intros [->|[->|[->|[]]]]; eexists; (split; [reflexivity|done]).
Qed.

Lemma productData_unknown k : k ∉ knownCategories → productData !! k = None.
Proof.
  unfold knownCategories. rewrite !not_elem_of_cons. intros (?&?&?&_).
  unfold productData. rewrite !lookup_insert_ne by done.
  by rewrite lookup_singleton_ne.
Qed.

Lemma getProductData_known k ps :
  productData !! k = Some ps → getProductData (Some k) = JsArray ps.
Proof. intros H. unfold getProductData, getProperty; simpl. by rewrite H. Qed.

(** A key that neither the table nor [Object.prototype] knows falls back
    to the scooters. *)
Lemma getProductData_fallback type :
  getProperty (toPropertyKey type) = JsUndefined →
  getProductData type = getProperty "scooters".
Proof. intros H. unfold getProductData. by rewrite H. Qed.

Lemma getProperty_undefined k :
  k ∉ knownCategories → k ∉ prototypeMethods → k ≠ "__proto__" →
  getProperty k = JsUndefined.
Proof.
  intros Hk Hp Hproto. unfold getProperty, ObjectPrototype.
  rewrite productData_unknown by done.
  by rewrite bool_decide_eq_false_2, bool_decide_eq_false_2.
Qed.

(** *** Closed forms *)

Lemma appendChildren_fold (cards : list Node) g (doc : list Element) :
  foldl (λ d card, alter (appendChild card) g d) doc cards
  = alter (λ e, setChildren (children e ++ cards) e) g doc.
Proof.
  revert doc. induction cards as [|c cards IH]; intros doc; simpl.
  - symmetry. apply list_alter_id. intros [cl dt ch]. unfold setChildren; simpl.
    by rewrite app_nil_r.
  - rewrite IH, list_alter_alter_eq. apply list_alter_ext; [|done].
    intros [cl dt ch] _. unfold setChildren, appendChild; simpl.
    by rewrite <- app_assoc.
Qed.

Lemma loadTabContent_closed type (doc : list Element) :
  loadTabContent type doc = (render type doc, outcome type doc).
Proof.
  unfold loadTabContent, render, outcome, cardsFor, bind, gets, modify; simpl.
  destruct (querySelector modelsGrid doc) as [g|]; [|done].
  destruct (getProductData type) as [|ps|f|o]; simpl; try done.
  etrans;
    [apply (forEach_modify
              (λ product, alter (appendChild (createProductCard product)) g))|].
  f_equal.
  rewrite <- (foldl_fmap (λ d card, alter (appendChild card) g d) _ ps createProductCard).
  rewrite appendChildren_fold, list_alter_alter_eq.
  apply list_alter_ext; [|done]. by intros [cl dt ch] _.
Qed.

Lemma switchTab_closed this b (doc : list Element) :
  switchTab this b doc
  = (render (getAttribute_dataTab b doc) (mark this b doc),
     outcome (getAttribute_dataTab b doc) (mark this b doc)).
Proof.
  unfold switchTab, bind, gets; simpl.
  rewrite (forEach_modify (λ button, alter (classList_remove "active") button)).
  apply loadTabContent_closed.
Qed.

Lemma foldl_alter_lookup (f : Element → Element) (l : list nat) (doc : list Element) j :
  (∀ e, f (f e) = f e) →
  foldl (λ d i, alter f i d) doc l !! j
  = (if decide (j ∈ l) then f else id) <$> doc !! j.
Proof.
  intros Hf. revert doc. induction l as [|i l IH]; intros doc.
  - destruct (decide (j ∈ [])) as [H|_]; [by apply elem_of_nil in H|].
    simpl. by destruct (doc !! j).
  - simpl. rewrite IH, list_lookup_alter.
    destruct (decide (j ∈ i :: l)) as [Hc|Hc], (decide (j ∈ l)) as [Hl|Hl],
      (decide (i = j)) as [->|Hne]; destruct (doc !! j) as [e|]; simpl;
      rewrite ?Hf; try done;
      try (exfalso; apply Hc; by (left || right));
      by apply elem_of_cons in Hc as [->|?].
Qed.

Lemma mark_imap this b (doc : list Element) :
  mark this b doc = imap (markElem this b) doc.
Proof.
  apply list_eq; intros j. unfold mark, markElem.
  rewrite list_lookup_imap, list_lookup_alter.
  destruct (decide (b = j)) as [->|Hne].
  - rewrite decide_True by done.
    rewrite foldl_alter_lookup by apply remove_remove.
    by destruct (doc !! j).
  - rewrite decide_False by congruence.
    by rewrite foldl_alter_lookup by apply remove_remove.
Qed.

Lemma matches_markElem sel this b j e :
  untouched sel → matches sel (markElem this b j e) = matches sel e.
Proof.
  intros Hsel. unfold markElem.
  case_decide; simpl; rewrite ?matches_add by done;
    case_decide; simpl; by rewrite ?matches_remove by done.
Qed.

Lemma query_mark sel this b (doc : list Element) :
  untouched sel → querySelector sel (mark this b doc) = querySelector sel doc.
Proof.
  intros Hsel. rewrite mark_imap. apply findFrom_imap.
  intros j e. by apply matches_markElem.
Qed.

Lemma modelsGrid_untouched : untouched modelsGrid.
Proof. simpl. by rewrite list_elem_of_singleton. Qed.

Lemma query_render sel type (doc : list Element) :
  querySelector sel (render type doc) = querySelector sel doc.
Proof.
  unfold render. destruct (querySelector modelsGrid doc) as [g|]; [|done].
  apply findFrom_alter. by intros e; destruct sel.
Qed.

Lemma renderTarget_render type (doc : list Element) :
  is_Some (querySelector modelsGrid doc) →
  renderTarget (render type doc) = Some (cardsFor type).
Proof.
  intros [g Hg]. unfold renderTarget. rewrite query_render, Hg. simpl.
  unfold render. rewrite Hg, list_lookup_alter_eq.
  by destruct (querySelector_Some _ _ _ Hg) as (e & -> & _).
Qed.

Lemma getAttribute_mark this b el (doc : list Element) :
  getAttribute_dataTab el (mark this b doc) = getAttribute_dataTab el doc.
Proof.
  unfold getAttribute_dataTab. rewrite mark_imap, list_lookup_imap.
  destruct (doc !! el) as [e|]; [|done]. simpl. unfold markElem.
  case_decide; case_decide; simpl; unfold classList_add;
    try destruct (contains _ _); done.
Qed.

Lemma getAttribute_render type el (doc : list Element) :
  getAttribute_dataTab el (render type doc) = getAttribute_dataTab el doc.
Proof.
  unfold getAttribute_dataTab, render.
  destruct (querySelector modelsGrid doc) as [g|]; [|done].
  rewrite list_lookup_alter. case_decide; [subst|done].
  by destruct (doc !! el).
Qed.

(** *** Rendering replaces, marking is idempotent, the two commute *)

Lemma render_render type (doc : list Element) :
  render type (render type doc) = render type doc.
Proof.
  unfold render at 1. rewrite query_render. unfold render.
  destruct (querySelector modelsGrid doc) as [g|]; [|done].
  rewrite list_alter_alter_eq. by apply list_alter_ext.
Qed.

Lemma markElem_markElem this b j e :
  markElem this b j (markElem this b j e) = markElem this b j e.
Proof.
  unfold markElem. repeat case_decide; simpl;
    rewrite ?remove_add, ?remove_remove, ?add_add; done.
Qed.

Lemma mark_mark this b (doc : list Element) :
  mark this b (mark this b doc) = mark this b doc.
Proof.
  rewrite !mark_imap. apply list_eq; intros j.
  rewrite !list_lookup_imap. destruct (doc !! j) as [e|]; [|done].
  simpl. by rewrite markElem_markElem.
Qed.

Lemma mark_render this b type (doc : list Element) :
  mark this b (render type doc) = render type (mark this b doc).
Proof.
  unfold render at 2. rewrite query_mark by apply modelsGrid_untouched.
  unfold render. destruct (querySelector modelsGrid doc) as [g|]; [|done].
  rewrite !mark_imap. apply list_eq; intros j.
  rewrite list_lookup_imap, !list_lookup_alter, !list_lookup_imap.
  case_decide; [subst|done]. destruct (doc !! j) as [e|]; [|done].
  simpl. f_equal. unfold markElem, setChildren.
  repeat case_decide; simpl; unfold classList_add, contains; simpl;
    by try destruct (bool_decide _).
Qed.

Lemma outcome_ext type (doc doc' : list Element) :
  querySelector modelsGrid doc' = querySelector modelsGrid doc →
  outcome type doc' = outcome type doc.
Proof. unfold outcome. by intros ->. Qed.

(** *** Selecting a category *)

(** C3: for a known category [k], selecting it (by [switchTab] on a
    control whose [data-tab] is [k], or by [loadTabContent] directly)
    returns normally and leaves in the render target exactly the cards
    of the products of [productData[k]], one per product, in table
    order; there are as many cards as products. *)
Theorem selectCategory_known this b k (doc : list Element) :
  k ∈ knownCategories →
  getAttribute_dataTab b doc = Some k →
  is_Some (querySelector modelsGrid doc) →
  ∃ ps, productData !! k = Some ps
    ∧ (switchTab this b doc).2 = Return tt
    ∧ renderTarget (switchTab this b doc).1 = Some (createProductCard <$> ps)
    ∧ (loadTabContent (Some k) doc).2 = Return tt
    ∧ renderTarget (loadTabContent (Some k) doc).1 = Some (createProductCard <$> ps)
    ∧ length (createProductCard <$> ps) = length ps.
Proof.
  intros Hk Hb [g Hg].
  destruct (productData_known k Hk) as (ps & Hps & _). exists ps.
  pose proof (getProductData_known k ps Hps) as Hdata.
  rewrite switchTab_closed, loadTabContent_closed, Hb. simpl.
  assert (cardsFor (Some k) = createProductCard <$> ps) as Hcards.
  { unfold cardsFor. by rewrite Hdata. }
  split_and!; [done| | | | |].
  - unfold outcome. rewrite query_mark by apply modelsGrid_untouched.
    by rewrite Hg, Hdata.
  - rewrite renderTarget_render, Hcards; [done|].
    rewrite query_mark by apply modelsGrid_untouched. by exists g.
  - unfold outcome. by rewrite Hg, Hdata.
  - rewrite renderTarget_render, Hcards; [done|by exists g].
  - apply length_fmap.
Qed.

Lemma selectCategory_known_witness :
  let doc := [mkElement ["tab-button"; "active"] (Some "scooters") [];
              mkElement ["tab-button"] (Some "bikes") [];
              mkElement ["models-grid"] None [mkNode "placeholder" "old"]] in
  ∃ ps, productData !! "bikes" = Some ps
    ∧ (switchTab (mkProductTabs [0; 1]) 1 doc).2 = Return tt
    ∧ renderTarget (switchTab (mkProductTabs [0; 1]) 1 doc).1
      = Some (createProductCard <$> ps)
    ∧ (loadTabContent (Some "bikes") doc).2 = Return tt
    ∧ renderTarget (loadTabContent (Some "bikes") doc).1
      = Some (createProductCard <$> ps)
    ∧ length (createProductCard <$> ps) = length ps.
Proof.
  apply (selectCategory_known (mkProductTabs [0; 1]) 1 "bikes").
  - unfold knownCategories. right. left.
  - reflexivity.
  - by exists 2.
Defined.

(** C5: selecting the same control twice in a row ends in the same
    document, with the same completion, as selecting it once; so the
    render target and its number of cards are the same. The same holds
    for [loadTabContent] with any key. *)
Theorem selectCategory_twice this b type (doc : list Element) :
  let once := switchTab this b doc in
  let twice := switchTab this b once.1 in
  let once' := loadTabContent type doc in
  let twice' := loadTabContent type once'.1 in
  twice = once
  ∧ renderTarget twice.1 = renderTarget once.1
  ∧ (length <$> renderTarget twice.1) = (length <$> renderTarget once.1)
  ∧ twice' = once'
  ∧ (length <$> renderTarget twice'.1) = (length <$> renderTarget once'.1).
Proof.
  simpl.
  assert (switchTab this b (switchTab this b doc).1 = switchTab this b doc) as E.
  { rewrite (switchTab_closed this b doc). simpl.
    rewrite switchTab_closed.
    rewrite getAttribute_render, getAttribute_mark.
    rewrite mark_render, mark_mark, render_render. f_equal.
    apply outcome_ext. by rewrite query_render. }
  assert (loadTabContent type (loadTabContent type doc).1 = loadTabContent type doc) as E'.
  { rewrite (loadTabContent_closed type doc). simpl.
    rewrite loadTabContent_closed, render_render. f_equal.
    apply outcome_ext. by rewrite query_render. }
  by rewrite E, E'.
Qed.

(** C4, on a key that names a member of [Object.prototype]: for the
    key [constructor], which is not a known category, the lookup yields
    the inherited function, the fallback to the default category is not
    taken, the render target is emptied and [products.forEach] throws a
    TypeError, where the default category has three products to show. *)
Theorem selectCategory_prototype_key :
  let doc := [mkElement ["tab-button"] (Some "constructor") [];
              mkElement ["models-grid"] None [mkNode "product-card" "old"]] in
  let cleared := [mkElement ["tab-button"; "active"] (Some "constructor") [];
                  mkElement ["models-grid"] None []] in
  ("constructor" ∉ knownCategories)
  ∧ getProductData (Some "constructor") = JsFunction "constructor"
  ∧ switchTab (mkProductTabs [0]) 0 doc
    = (cleared, Throw (TypeError "products.forEach is not a function"))
  ∧ renderTarget (switchTab (mkProductTabs [0]) 0 doc).1 = Some []
  ∧ (loadTabContent (Some "constructor") doc).2
    = Throw (TypeError "products.forEach is not a function")
  ∧ (length <$> renderTarget (loadTabContent (Some "scooters") doc).1) = Some 3.
Proof.
  simpl. split_and!; try reflexivity.
  unfold knownCategories. rewrite !not_elem_of_cons. split_and!; try done.
  apply not_elem_of_nil.
Qed.

(** For the keys C4 is right about: a key that is neither a category nor
    a member of [Object.prototype] (the empty string and [null] among
    them) returns normally and renders the default category. *)
Lemma selectCategory_fallback type (doc : list Element) :
  getProperty (toPropertyKey type) = JsUndefined →
  is_Some (querySelector modelsGrid doc) →
  ∃ ps, productData !! "scooters" = Some ps
    ∧ loadTabContent type doc
      = (render (Some "scooters") doc, Return tt)
    ∧ renderTarget (loadTabContent type doc).1 = Some (createProductCard <$> ps).
Proof.
  intros Hu [g Hg]. eexists. split; [reflexivity|].
  assert (getProductData type = getProductData (Some "scooters")) as Hd.
  { by rewrite (getProductData_fallback type Hu). }
  rewrite loadTabContent_closed. simpl.
  assert (render type doc = render (Some "scooters") doc) as ->.
  { unfold render, cardsFor. by rewrite Hd. }
  split.
  - f_equal. unfold outcome. by rewrite Hg, Hd.
  - rewrite renderTarget_render by by exists g. done.
Qed.

Example selectCategory_null_key :
  getProperty (toPropertyKey None) = JsUndefined
  ∧ getProperty (toPropertyKey (Some EmptyString)) = JsUndefined.
Proof. split; reflexivity. Qed.

(** *** Mutual exclusion of the active marking *)

Lemma isActive_render type (doc : list Element) el :
  isActive (render type doc) el = isActive doc el.
Proof.
  unfold isActive, render.
  destruct (querySelector modelsGrid doc) as [g|]; [|done].
  rewrite list_lookup_alter. case_decide; [subst|done].
  by destruct (doc !! el).
Qed.

Lemma isActive_mark this b (doc : list Element) el :
  el ∈ tabButtons this → isActive (mark this b doc) el = true → el = b.
Proof.
  intros Hel. unfold isActive. rewrite mark_imap, list_lookup_imap.
  destruct (doc !! el) as [e|]; [|done]. simpl. unfold markElem.
  rewrite (decide_True (P := el ∈ tabButtons this)) by done.
  case_decide; [done|]. simpl. by rewrite contains_remove_eq.
Qed.

Lemma length_all_equal {A} (a : A) (k : list A) :
  NoDup k → (∀ x, x ∈ k → x = a) → length k ≤ 1.
Proof.
  intros Hnd Hall. destruct k as [|x [|y k]]; simpl; [lia|lia|].
  assert (x = a) as -> by (apply Hall; left).
  assert (y = a) as -> by (apply Hall; right; left).
  apply NoDup_cons in Hnd as [Hnotin _]. exfalso. apply Hnotin. left.
Qed.

Lemma NoDup_filter_keep {A} (P : A → Prop) `{∀ x, Decision (P x)} (l : list A) :
  NoDup l → NoDup (filter P l).
Proof.
  induction 1 as [|x l Hx Hl IH]; [constructor|].
  rewrite filter_cons. case_decide; [|done].
  apply NoDup_cons. split; [|done].
  rewrite list_elem_of_filter. tauto.
Qed.

Lemma activeCount_ext this (doc doc' : list Element) :
  (∀ el, isActive doc' el = isActive doc el) →
  activeCount this doc' = activeCount this doc.
Proof.
  intros H. unfold activeCount. f_equal. apply list_filter_iff.
  intros el. by rewrite H.
Qed.

Lemma activeCount_mark this b (doc : list Element) :
  NoDup (tabButtons this) → activeCount this (mark this b doc) ≤ 1.
Proof.
  intros Hnd. unfold activeCount. apply (length_all_equal b).
  - by apply NoDup_filter_keep.
  - intros el [Hact Hel]%list_elem_of_filter. by eapply isActive_mark.
Qed.

Lemma click_at_most_one this el (doc : list Element) :
  NoDup (tabButtons this) →
  activeCount this doc ≤ 1 → activeCount this (click this el doc).1 ≤ 1.
Proof.
  intros Hnd H. unfold click. case_bool_decide; [|done].
  rewrite switchTab_closed. simpl.
  rewrite (activeCount_ext this (mark this el doc)) by (intros; apply isActive_render).
  by apply activeCount_mark.
Qed.

Lemma clicks_at_most_one this els (doc : list Element) :
  NoDup (tabButtons this) →
  activeCount this doc ≤ 1 → activeCount this (clicks this els doc) ≤ 1.
Proof.
  intros Hnd. revert doc. unfold clicks.
  induction els as [|el els IH]; intros doc H; simpl; [done|].
  apply IH. by apply click_at_most_one.
Qed.

Lemma init_state (doc : list Element) :
  ∀ el, isActive (init doc).1 el = isActive doc el.
Proof.
  intros el. unfold init, loadDefaultTab, bind, gets; simpl.
  destruct (querySelector _ doc) as [b|]; simpl; [|done].
  rewrite loadTabContent_closed. simpl.
  destruct (outcome _ doc); simpl; apply isActive_render.
Qed.

(** Each click on a tab control marks exactly that control. *)
Lemma click_marks_clicked this el (doc : list Element) :
  NoDup (tabButtons this) → el ∈ tabButtons this → is_Some (doc !! el) →
  ∀ j, j ∈ tabButtons this →
       isActive (click this el doc).1 j = bool_decide (j = el).
Proof.
  intros Hnd Hel [e He] j Hj. unfold click.
  rewrite bool_decide_eq_true_2 by done.
  rewrite switchTab_closed. simpl. rewrite isActive_render.
  case_bool_decide as Hje.
  - subst j. unfold isActive. rewrite mark_imap, list_lookup_imap, He. simpl.
    unfold markElem. rewrite decide_True by done. apply contains_add_eq.
  - destruct (isActive (mark this el doc) j) eqn:E; [|done].
    by apply isActive_mark in E.
Qed.

(** Selecting a tab and clicking move no element. *)
Lemma length_render type (doc : list Element) :
  length (render type doc) = length doc.
Proof.
  unfold render. destruct (querySelector modelsGrid doc); [|done].
  apply length_alter.
Qed.

Lemma length_click this el (doc : list Element) :
  length (click this el doc).1 = length doc.
Proof.
  unfold click. case_bool_decide; [|done].
  rewrite switchTab_closed. cbn [fst].
  by rewrite length_render, mark_imap, length_imap.
Qed.

Lemma length_clicks this els (doc : list Element) :
  length (clicks this els doc) = length doc.
Proof.
  revert doc. unfold clicks. induction els as [|el els IH]; intros doc; [done|].
  simpl. by rewrite IH, length_click.
Qed.

Lemma length_init (doc : list Element) : length (init doc).1 = length doc.
Proof.
  unfold init, loadDefaultTab, bind, gets; simpl.
  destruct (querySelector _ doc) as [b|]; simpl; [|done].
  rewrite loadTabContent_closed. simpl.
  destruct (outcome _ doc); simpl; apply length_render.
Qed.

(** A click at the end of a session is a click on the page the session
    has reached. *)
Lemma session_snoc els el (doc : list Element) :
  session (els ++ [el]) doc
  = (click (mkProductTabs (querySelectorAll (ByClasses ["tab-button"]) doc)) el
       (session els doc)).1.
Proof. unfold session, clicks. by rewrite foldl_app. Qed.

(** C6: take the tab controls as [init] does and let at most one of them
    be marked active in the page as loaded. After the widget is
    constructed and after any sequence of clicks, on tab controls or
    elsewhere, at most one tab control is marked active. Each click on a
    tab control is a [switchTab] on it, after which no tab control but
    the clicked one is marked, and the clicked one is. *)
Theorem at_most_one_active_tab (els : list nat) (doc : list Element) :
  let this := mkProductTabs (querySelectorAll (ByClasses ["tab-button"]) doc) in
  activeCount this doc ≤ 1 →
  activeCount this (session els doc) ≤ 1
  ∧ ∀ el, el ∈ tabButtons this →
      session (els ++ [el]) doc = (switchTab this el (session els doc)).1
      ∧ ∀ j, j ∈ tabButtons this →
          isActive (session (els ++ [el]) doc) j = bool_decide (j = el).
Proof.
  intros this H. split.
  - unfold session. fold this.
    apply clicks_at_most_one; [apply querySelectorAll_NoDup|].
    by rewrite (activeCount_ext this doc) by apply init_state.
  - intros el Hel. rewrite session_snoc. fold this. split.
    + unfold click. by rewrite bool_decide_eq_true_2.
    + apply click_marks_clicked; [apply querySelectorAll_NoDup|done|].
      apply lookup_lt_is_Some_2. unfold session. fold this.
      rewrite length_clicks, length_init.
      by apply allFrom_lt in Hel.
Qed.

Lemma at_most_one_active_tab_witness :
  let doc := [mkElement ["tab-button"; "active"] (Some "scooters") [];
              mkElement ["tab-button"] (Some "bikes") [];
              mkElement ["tab-button"] (Some "mopeds") [];
              mkElement ["models-grid"] None []] in
  let this := mkProductTabs (querySelectorAll (ByClasses ["tab-button"]) doc) in
  activeCount this doc ≤ 1
  ∧ activeCount this (session [1; 2; 3; 1] doc) ≤ 1
  ∧ isActive (session ([1; 2; 3; 1] ++ [2]) doc) 0 = false
  ∧ isActive (session ([1; 2; 3; 1] ++ [2]) doc) 1 = false
  ∧ isActive (session ([1; 2; 3; 1] ++ [2]) doc) 2 = true.
Proof.
  intros doc this.
  assert (activeCount this doc ≤ 1) as H by (vm_compute; lia).
  assert (∀ j, j ∈ tabButtons this ↔ j = 0 ∨ j = 1 ∨ j = 2) as Hin.
  { intros j. change (tabButtons this) with [0; 1; 2].
    rewrite !elem_of_cons, elem_of_nil. tauto. }
  destruct (at_most_one_active_tab [1; 2; 3; 1] doc H) as [H1 H2].
  destruct (H2 2) as [_ H3]; [apply Hin; tauto|].
  split_and!; [exact H|exact H1|..].
  - apply (H3 0), Hin. tauto.
  - apply (H3 1), Hin. tauto.
  - apply (H3 2), Hin. tauto.
Defined.
End ProductTabsFacts.

(** ** Consultation form *)

Module FormHandlerFacts.
Import EventLoop FormHandler.
Local Open Scope Z_scope.

Lemma isEmpty_false s : s ≠ EmptyString → isEmpty s = false.
Proof. by destruct s. Qed.

Lemma showNotification_closed message type (l : PLoop) :
  showNotification message type l
  = (let n := length (notifications (st l)) in
     mkLoop (now l) (S (S (nextId l)))
       (pending l ++ [mkTimer (nextId l) (now l + 100) (AnimateIn n);
                      mkTimer (S (nextId l)) (now l + 5000) (AutoRemove n)])
       (mkPage (form (st l))
               (notifications (st l) ++ [toast message type])
               (journal (st l) ++ [ENotify type; ESetTimeout 100; ESetTimeout 5000])),
     Return tt).
Proof.
  destruct l as [n i ts [f ns jr]].
  unfold showNotification, schedule, record, bind, gets, modify, ret, setSt, setTimeout.
  simpl. rewrite <- !app_assoc. reflexivity.
Qed.

(** When the handler reads an empty field: the control named [n] is
    absent or empty, and the first control of type [ty] is empty. *)
Lemma readField_blank n ty f :
  readField n ty f = Return EmptyString ↔
  (FormData_get n f = None ∨ FormData_get n f = Some EmptyString)
  ∧ (value <$> querySelector_input ty f) = Some EmptyString.
Proof.
  unfold readField.
  destruct (FormData_get n f) as [[|c s]|];
    destruct (querySelector_input ty f) as [i|]; simpl.
  - split; [intros [= ->]; by split; [right|]|by intros [_ [= ->]]].
  - split; [done|by intros [_ ?]].
  - split; [done|]. by intros [[?|?] _].
  - split; [done|by intros [_ ?]].
  - split; [intros [= ->]; by split; [left|]|by intros [_ [= ->]]].
  - split; [done|by intros [_ ?]].
Qed.

(** C8: when the name or the phone the handler reads from the form is
    empty, the handler returns at once, within the same invocation and
    at the same instant. It has appended one error notification (with
    the two timers of its animation), has started no timer for the
    simulated latency, and has left the submit control and the fields
    of the form as they were. *)
Theorem submit_blank_field (l : PLoop) (name phone : string) :
  readField "name" "text" (form (st l)) = Return name →
  readField "phone" "tel" (form (st l)) = Return phone →
  name = EmptyString ∨ phone = EmptyString →
  let l' := (handleConsultationSubmit l).1 in
  let n := length (notifications (st l)) in
  (handleConsultationSubmit l).2 = Return tt
  ∧ now l' = now l
  ∧ form (st l') = form (st l)
  ∧ notifications (st l')
    = notifications (st l) ++ [toast "Пожалуйста, заполните все поля" "error"]
  ∧ hasSeverity "error" (toast "Пожалуйста, заполните все поля" "error") = true
  ∧ pending l'
    = pending l ++ [mkTimer (nextId l) (now l + 100) (AnimateIn n);
                    mkTimer (S (nextId l)) (now l + 5000) (AutoRemove n)]
  ∧ filter (λ t, isResume t = true) (pending l')
    = filter (λ t, isResume t = true) (pending l)
  ∧ journal (st l')
    = journal (st l) ++ [EPreventDefault; ENotify "error";
                         ESetTimeout 100; ESetTimeout 5000].
Proof.
  intros Hname Hphone Hblank.
  assert (isEmpty name || isEmpty phone = true) as Hempty.
  { destruct Hblank as [-> | ->]; [done|]. by rewrite orb_true_r. }
  assert (handleConsultationSubmit l
          = showNotification "Пожалуйста, заполните все поля" "error"
              (setSt (λ p, mkPage (form p) (notifications p)
                             (journal p ++ [EPreventDefault])) l)) as E.
  { unfold handleConsultationSubmit, record, bind, gets, modify; simpl.
    destruct l as [t i ts [f ns jr]]; simpl in *.
    rewrite Hname, Hphone, Hempty. done. }
  simpl. rewrite E, showNotification_closed.
  destruct l as [t i ts [f ns jr]]; simpl.
  split_and!; try done.
  - rewrite filter_app. apply app_nil_r.
  - by rewrite <- app_assoc.
Qed.

Lemma submit_blank_field_witness :
  let f := mkForm [mkInput (Some "text") None EmptyString EmptyString;
                   mkInput (Some "tel") None "123" EmptyString]
                  [mkButton (Some "submit") "Send" false] in
  let l : PLoop := start (mkPage f [] []) in
  (handleConsultationSubmit l).2 = Return tt
  ∧ form (st (handleConsultationSubmit l).1) = f
  ∧ notifications (st (handleConsultationSubmit l).1)
    = [toast "Пожалуйста, заполните все поля" "error"]
  ∧ filter (λ t, isResume t = true) (pending (handleConsultationSubmit l).1) = [].
Proof.
  intros f l.
  destruct (submit_blank_field l EmptyString "123")
    as (H1 & _ & H3 & H4 & _ & _ & H7 & _).
  - reflexivity.
  - reflexivity.
  - by left.
  - split_and!; [exact H1|exact H3|exact H4|exact H7].
Defined.

(** *** A valid submission *)

Lemma querySelector_submit_Some f b :
  querySelector_submit f = Some b → ∃ btn, buttons f !! b = Some btn.
Proof.
  unfold querySelector_submit.
  destruct (list_find _ (buttons f)) as [[i btn]|] eqn:E; [|done].
  simpl. intros [= <-]. apply list_find_Some in E as (? & _). eauto.
Qed.

Lemma handleConsultationSubmit_filled (l : PLoop) name phone b :
  readField "name" "text" (form (st l)) = Return name →
  readField "phone" "tel" (form (st l)) = Return phone →
  name ≠ EmptyString → phone ≠ EmptyString →
  querySelector_submit (form (st l)) = Some b →
  handleConsultationSubmit l
  = (mkLoop (now l) (S (nextId l))
       (pending l ++ [mkTimer (nextId l) (now l + 1000)
                        (ResumeSubmit b (default EmptyString
                           (textContent <$> buttons (form (st l)) !! b)))])
       (sending b (st l)),
     Return tt).
Proof.
  intros Hname Hphone Hn Hp Hb.
  destruct l as [t i ts [f ns jr]]; simpl in *.
  unfold handleConsultationSubmit, record, bind, gets, modify; simpl.
  rewrite Hname, Hphone, (isEmpty_false _ Hn), (isEmpty_false _ Hp). simpl.
  unfold submitConsultationRequest, tryCatch, bind, gets; simpl.
  rewrite Hb.
  unfold setTextContent, setDisabled, setForm, schedule, record, bind, modify,
    ret, setSt, setTimeout, sending; simpl.
  rewrite list_alter_alter_eq, <- !app_assoc. reflexivity.
Qed.

Lemma resumeSubmit_closed (t : Z) (i : nat) b (p : Page) :
  fire (ResumeSubmit b (default EmptyString (textContent <$> buttons (form p) !! b)))
       (mkLoop t i [] (sending b p))
  = mkLoop t (S (S i))
      [mkTimer i (t + 100) (AnimateIn (length (notifications p)));
       mkTimer (S i) (t + 5000) (AutoRemove (length (notifications p)))]
      (sent b p).
Proof.
  destruct p as [f ns jr]. unfold fire, tryCatch, resumeSubmit, bind.
  rewrite showNotification_closed. simpl.
  unfold reset, setTextContent, setDisabled, setForm, record, bind, modify,
    setSt, sent; simpl.
  rewrite !list_alter_alter_eq, <- !app_assoc. simpl.
  do 3 f_equal.
  apply list_alter_ext; [|done]. intros x Hx. simpl. by rewrite Hx.
Qed.

(** C9 (amended): a submission in which the handler reads a non-empty
    name and a non-empty phone, on a form that has a submit button. The
    handler returns at once with the button showing the waiting text,
    disabled, and one timer of 1000 ms started. Until 1000 ms have
    passed nothing else happens: no notification, fields and button as
    they are. At 1000 ms the success notification is appended, then the
    form is reset (every field back to its default value, so empty when
    the markup declares no value), then the button gets its text back
    and is enabled, in this order. *)
Theorem submit_filled (p : Page) (name phone : string) (b : nat) (fuel : nat) :
  readField "name" "text" (form p) = Return name →
  readField "phone" "tel" (form p) = Return phone →
  name ≠ EmptyString → phone ≠ EmptyString →
  querySelector_submit (form p) = Some b →
  (handleConsultationSubmit (start p)).2 = Return tt
  ∧ (∀ h, 0 <= h < 1000 →
       st <$> submitAndWait fuel h (start p) = Some (sending b p))
  ∧ (∃ l, submitAndWait (S fuel) 1000 (start p) = Some l
          ∧ now l = 1000
          ∧ st l = sent b p
          ∧ filter (λ t, isResume t = true) (pending l) = []
          ∧ ((∀ i, i ∈ inputs (form p) → defaultValue i = EmptyString) →
             ∀ i, i ∈ inputs (form (st l)) → value i = EmptyString)).
Proof.
  intros Hname Hphone Hn Hp Hb.
  pose proof (handleConsultationSubmit_filled (start p) name phone b
                Hname Hphone Hn Hp Hb) as E.
  simpl in E. change (0 + 1000) with 1000 in E. split_and!.
  - by rewrite E.
  - intros h [Hh0 Hh]. unfold submitAndWait. rewrite E. simpl fst.
    erewrite EventLoopFacts.runTimers_not_reached; [done|reflexivity|].
    simpl. by apply Z.leb_gt.
  - unfold submitAndWait. rewrite E. simpl fst.
    erewrite EventLoopFacts.runTimers_single; [|reflexivity..].
    simpl task. simpl due. simpl nextId. simpl st.
    rewrite resumeSubmit_closed.
    erewrite EventLoopFacts.runTimers_not_reached; [|reflexivity..].
    eexists. split; [reflexivity|].
    simpl. split_and!; try done.
    intros Hdef i (i0 & -> & Hi0)%list_elem_of_fmap. simpl. by apply Hdef.
Qed.

Lemma submit_filled_witness :
  let f := mkForm [mkInput (Some "text") None "A" EmptyString;
                   mkInput (Some "tel") None "123" EmptyString]
                  [mkButton (Some "submit") "Send" false] in
  let p := mkPage f [] [] in
  let after := mkForm [mkInput (Some "text") None EmptyString EmptyString;
                       mkInput (Some "tel") None EmptyString EmptyString]
                      [mkButton (Some "submit") "Send" false] in
  (st <$> submitAndWait 1 999 (start p)) = Some (sending 0 p)
  ∧ ∃ l, submitAndWait 1 1000 (start p) = Some l
         ∧ form (st l) = after
         ∧ hasSeverity "success" <$> notifications (st l) = [true].
Proof.
  intros f p after.
  destruct (submit_filled p "A" "123" 0 0) as (_ & H2 & l & H3 & _ & H5 & _);
    try done.
  split; [apply (submit_filled p "A" "123" 0 1); done || lia|].
  exists l. split; [exact H3|]. by rewrite H5.
Defined.

(** C9, as stated, fails on the clearing: [form.reset()] restores the
    value the markup declares. With a phone field preset to a dialling
    prefix, a valid submission ends with the prefix back in the field,
    not with an empty field. *)
Lemma reset_restores_preset_value :
  let f := mkForm [mkInput (Some "text") None "A" EmptyString;
                   mkInput (Some "tel") None "+375291234567" "+375"]
                  [mkButton (Some "submit") "Send" false] in
  ∃ l, submitAndWait 1 1000 (start (mkPage f [] [])) = Some l
       ∧ hasSeverity "success" <$> notifications (st l) = [true]
       ∧ value <$> inputs (form (st l)) = [EmptyString; "+375"]
       ∧ ¬ (∀ i, i ∈ inputs (form (st l)) → value i = EmptyString).
Proof.
  eexists. split; [vm_compute; reflexivity|].
  split_and!; [by vm_compute|by vm_compute|].
  intros H. cbn [st form inputs] in H.
  specialize (H (mkInput (Some "tel") None "+375" "+375")).
  discriminate H. right. left.
Qed.
End FormHandlerFacts.

(** ** The application composer *)

Module ElectroPowerAppFacts.
Import ElectroPowerApp.

Lemma componentKey_inj w w' : componentKey w = componentKey w' → w = w'.
Proof. by destruct w, w'. Qed.

Section ComposerFacts.
Context {World : Type}.
Variable construct : Widget → Js (Browser World) unit.

Local Abbreviation newComponent := (newComponent construct).

Lemma registerAll_lookup (ws : list Widget) (m : gmap string Widget) w :
  registerAll ws m !! componentKey w
  = if decide (w ∈ ws) then Some w else m !! componentKey w.
Proof.
  revert m. induction ws as [|x ws IH]; intros m.
  - destruct (decide (w ∈ [])) as [H|_]; [by apply elem_of_nil in H|done].
  - simpl. rewrite IH.
    destruct (decide (w ∈ ws)) as [Hin|Hin], (decide (w ∈ x :: ws)) as [Hc|Hc];
      try done.
    + exfalso. apply Hc. by right.
    + apply elem_of_cons in Hc as [->|?]; [|done]. apply lookup_insert_eq.
    + apply lookup_insert_ne. intros Heq%componentKey_inj. apply Hc. subst. left.
Qed.

(** The constructors that return are registered, in order; the console
    and the page are as the constructors left them. *)
Lemma forEach_newComponent_ok (ws : list Widget) (a : App World) b' :
  constructAll construct ws (browser a) = (b', Return tt) →
  forEach newComponent ws a
  = (mkApp (registerAll ws (components a)) (logged b') (bodyLoaded a) (dom b'),
     Return tt).
Proof.
  unfold constructAll. revert a. induction ws as [|x ws IH]; intros a; simpl.
  - intros [= <-]. by destruct a.
  - unfold bind, ElectroPowerApp.newComponent.
    destruct (construct x (browser a)) as [[lg1 w1] [[]|e]]; [|done].
    intros H. by rewrite (IH (mkApp _ lg1 _ w1)) by done.
Qed.

(** The first constructor that throws ends the sequence. *)
Lemma forEach_newComponent_throw (pre post : list Widget) w (a : App World)
    b1 b2 e :
  constructAll construct pre (browser a) = (b1, Return tt) →
  construct w b1 = (b2, Throw e) →
  forEach newComponent (pre ++ w :: post) a
  = (mkApp (registerAll pre (components a)) (logged b2) (bodyLoaded a) (dom b2),
     Throw e).
Proof.
  unfold constructAll. revert a. induction pre as [|x pre IH]; intros a; simpl.
  - intros [= <-] Hw. unfold bind, ElectroPowerApp.newComponent. by rewrite Hw.
  - unfold bind at 1 2, ElectroPowerApp.newComponent at 1.
    destruct (construct x (browser a)) as [[lg1 w1] [[]|e']]; [|done].
    intros H Hw. by rewrite (IH (mkApp _ lg1 _ w1)) by done.
Qed.

(** The six statements of the [try] block are the constructors of
    [constructionOrder], one after the other. *)
Lemma initializeComponents_unfold (a : App World) :
  initializeComponents construct a
  = tryCatch
      (forEach newComponent constructionOrder >>
       consoleWrite (ConsoleLog "✅ Electro Power App initialized successfully") >>
       modify (λ a, mkApp (components a) (console a) true (world a)))
      (λ error,
         consoleWrite
           (ConsoleError "❌ Error initializing Electro Power App:" error)) a.
Proof.
  unfold initializeComponents, tryCatch, constructionOrder, forEach, bind.
  repeat (match goal with
          | |- context [ElectroPowerApp.newComponent construct ?w ?s] =>
              destruct (ElectroPowerApp.newComponent construct w s) as [? [[]|?]]
          end; simpl; try done).
Qed.

(** C2 (amended): when the constructors before [w] in the construction
    order return and the constructor of [w] throws, the composer catches
    the exception and logs it after whatever the constructors logged,
    and itself returns normally. The widgets before [w] are registered;
    [w] and every widget after it are not: their constructors are not
    run. The success message and the [loaded] class are skipped. *)
Theorem initializeComponents_stops_at_throw
    (pre post : list Widget) (w : Widget) (page : World)
    (b1 b2 : Browser World) (e : JsError) :
  constructionOrder = pre ++ w :: post →
  constructAll construct pre (mkBrowser [] page) = (b1, Return tt) →
  construct w b1 = (b2, Throw e) →
  let result := initializeComponents construct (newApp page) in
  result.2 = Return tt
  ∧ console result.1
    = logged b2 ++ [ConsoleError "❌ Error initializing Electro Power App:" e]
  ∧ bodyLoaded result.1 = false
  ∧ world result.1 = dom b2
  ∧ ∀ x, initialized result.1 x = bool_decide (x ∈ pre).
Proof.
  intros Horder Hpre Hw.
  assert (initializeComponents construct (newApp page)
          = (mkApp (registerAll pre ∅)
               (logged b2
                  ++ [ConsoleError "❌ Error initializing Electro Power App:" e])
               false (dom b2), Return tt)) as E.
  { rewrite initializeComponents_unfold, Horder.
    unfold tryCatch, bind at 1.
    by rewrite (forEach_newComponent_throw pre post w (newApp page) b1 b2 e). }
  simpl. rewrite E. simpl. split_and!; try done.
  intros x. unfold initialized; simpl. rewrite registerAll_lookup.
  case_decide.
  - by rewrite !bool_decide_eq_true_2.
  - rewrite lookup_empty. by rewrite !bool_decide_eq_false_2.
Qed.
End ComposerFacts.

(** C2, as stated, fails: when only the constructor of the first widget
    throws, the exception is caught and logged, but none of the other
    five widgets is constructed. *)
Lemma one_throw_stops_the_others :
  let result := initializeComponents onlyAutoScrollThrows (newApp tt) in
  (∀ w b, w ≠ AutoScrollW → onlyAutoScrollThrows w b = (b, Return tt))
  ∧ result.2 = Return tt
  ∧ components result.1 = ∅
  ∧ ¬ (∀ w, w ≠ AutoScrollW → initialized result.1 w = true).
Proof.
  simpl. split_and!; try done.
  - by intros [].
  - intros H. by specialize (H MobileNavW ltac:(done)).
Qed.

Lemma initializeComponents_stops_at_throw_witness :
  let result := initializeComponents formHandlerThrows (newApp tt) in
  result.2 = Return tt
  ∧ console result.1
    = [ConsoleError "❌ Error initializing Electro Power App:"
         (TypeError "document.querySelector is not a function")]
  ∧ bodyLoaded result.1 = false
  ∧ world result.1 = tt
  ∧ ∀ x, initialized result.1 x
         = bool_decide (x ∈ [AutoScrollW; MobileNavW; ProductTabsW]).
Proof.
  apply (initializeComponents_stops_at_throw formHandlerThrows
           [AutoScrollW; MobileNavW; ProductTabsW]
           [PerformanceOptimizerW; AnalyticsW] FormHandlerW tt
           (mkBrowser [] tt) (mkBrowser [] tt)
           (TypeError "document.querySelector is not a function")); reflexivity.
Defined.

(** *** The public [switchTab] *)

Import Dom.

(** Names the selector does not read as they are: with a NUL, a line
    break, a quote, a backslash or a lone surrogate. *)
Example selectorSafe_rejects :
  selectorSafe (String (Ascii.ascii_of_nat 0) "sale") = false
  ∧ selectorSafe (String (Ascii.ascii_of_nat 13) "sale") = false
  ∧ selectorSafe ("sa" +:+ String (Ascii.ascii_of_nat 34) "le") = false
  ∧ selectorSafe ("sa\le") = false
  ∧ selectorSafe (String (Ascii.ascii_of_nat 237)
                    (String (Ascii.ascii_of_nat 160)
                       (String (Ascii.ascii_of_nat 128) "sale"))) = false
  ∧ selectorSafe "скидки" = true.
Proof. by vm_compute. Qed.

(** C10 (amended): for a name that the selector reads as it is (no
    quote, backslash, line feed, form feed, carriage return, NUL or
    lone surrogate) and that is the [data-tab] of no element of the
    document, tab control or not, the public [switchTab] returns without
    any effect: the render target, the markings and the rest of the
    document are unchanged. *)
Theorem switchTab_unknown_name
    (productTabs : option ProductTabs.ProductTabs) (tabName : string)
    (doc : list Element) :
  selectorSafe tabName = true →
  (∀ e, e ∈ doc → dataTab e ≠ Some tabName) →
  switchTab productTabs tabName doc = (doc, Return tt).
Proof.
  intros _ Hnone. unfold switchTab, bind, gets; simpl.
  assert (querySelector (ByDataTab tabName) doc = None) as ->; [|done].
  apply DomFacts.findFrom_None. intros e He. simpl.
  apply bool_decide_eq_false. by apply Hnone.
Qed.

Lemma switchTab_unknown_name_witness :
  switchTab (Some (ProductTabs.mkProductTabs [0; 1])) "offers" pageWithPanel
  = (pageWithPanel, Return tt).
Proof.
  apply switchTab_unknown_name; [reflexivity|].
  intros e He. unfold pageWithPanel in He.
  rewrite !elem_of_cons, elem_of_nil in He.
  by destruct He as [->|[->|[->|[->|[]]]]].
Defined.

(** C10, as stated, fails: ["sale"] is the [data-tab] of no tab control,
    but of another element; the public [switchTab] finds that element,
    unmarks the active tab control, marks the element and renders the
    default category over the cards shown. *)
Lemma switchTab_finds_other_element :
  let this := ProductTabs.mkProductTabs (querySelectorAll (ByClasses ["tab-button"]) pageWithPanel) in
  let result := switchTab (Some this) "sale" pageWithPanel in
  (∀ b, b ∈ ProductTabs.tabButtons this →
        getAttribute_dataTab b pageWithPanel ≠ Some "sale")
  ∧ result.1 ≠ pageWithPanel
  ∧ ProductTabs.activeCount this result.1 = 0
  ∧ (length <$> ProductTabs.renderTarget result.1) = Some 3.
Proof.
  simpl. split_and!; try done.
  intros b Hb. change (b ∈ [0; 1]) in Hb.
  rewrite !elem_of_cons, elem_of_nil in Hb.
  by destruct Hb as [->|[->|[]]].
Qed.

End ElectroPowerAppFacts.

(** ** The wrappers on arbitrary traces *)

Module WrapperFacts.
Import EventLoop Utils EventLoopFacts Traces.
Local Open Scope Z_scope.

Section Bursts.
Context {Args : Type}.
Variables (wait : Z) (immediate : bool).
(** Below 2^31 ms the timer keeps the delay it is given. *)
Hypothesis wait_range : 0 <= wait < 2147483648.

Local Abbreviation DLoop := (Loop (DebounceTask Args) (DebounceSt Args)).

Local Abbreviation armed := (@Traces.armed Args wait).

Lemma executedFunction_rearm t i id a a' log t' :
  executedFunction wait immediate a' (mkLoop t' (S i) [mkTimer (S id) (t + wait) (Later a)]
                                        (mkDebounce (Some (S id)) log))
  = armed t' (S i) i a' log.
Proof.
  unfold executedFunction, armed, clearTimeout, setTimeout, setSt; simpl.
  rewrite andb_false_r. simpl.
  rewrite filter_cons_False, filter_nil by (by intros ?).
  simpl. by rewrite timerDelay_small by done.
Qed.

Lemma burst_run fuel tr t i id a log :
  burstFrom wait t tr →
  ∃ l, runTrace (later immediate) Args (executedFunction wait immediate)
         (S fuel) tr (armed t i id a log) = Some l
       ∧ pending l = []
       ∧ dlog (st l)
         = if immediate then log
           else log ++ [((default (t, a) (last tr)).1 + wait,
                         (default (t, a) (last tr)).2)].
Proof.
  revert t i id a. induction tr as [|[t' a'] tr IH]; intros t i id a Hb.
  - cbn [runTrace].
    erewrite runTimers_single; [|reflexivity..].
    destruct immediate, fuel; eexists; (split; [reflexivity|done]).
  - destruct Hb as (Hle & Hlt & Hb). cbn [runTrace].
    erewrite runTimers_not_reached;
      [|reflexivity|simpl; apply Z.leb_gt; lia].
    unfold armed at 1, settle. cbn [now nextId pending st].
    rewrite Z.max_r by done.
    rewrite executedFunction_rearm.
    destruct (IH t' (S i) i a' Hb) as (l & Hl & Hp & Hlog).
    exists l. split_and!; [done|done|].
    rewrite Hlog. destruct immediate; [done|].
    by destruct tr as [|x tr] using rev_ind; [|rewrite !last_cons, !last_snoc].
Qed.

Lemma first_activation fuel t0 a0 tr :
  0 <= t0 →
  runTrace (later immediate) Args (executedFunction wait immediate) fuel
    ((t0, a0) :: tr) (start (mkDebounce None []))
  = runTrace (later immediate) Args (executedFunction wait immediate) fuel tr
      (armed t0 1 0 a0 (if immediate then [(t0, a0)] else [])).
Proof.
  intros Ht0. cbn [runTrace].
  assert (runTimers (later immediate) fuel (Some t0) (start (mkDebounce None []))
          = Some (mkLoop t0 1 [] (mkDebounce None []))) as ->.
  { destruct fuel; simpl; by rewrite Z.max_r. }
  f_equal. unfold executedFunction, armed, clearTimeout, setTimeout, setSt, dfunc.
  simpl. rewrite andb_true_r, timerDelay_small by done. by destruct immediate.
Qed.
End Bursts.

(** X1: trailing-edge debounce on any burst. With [immediate = false]
    and [wait] below 2^31 ms (the range in which the timer keeps the
    delay it is given), a first activation at [t0] followed by
    activations each less than [wait] ms after the one before runs the
    callback exactly once, [wait] ms after the last activation and with
    its arguments. *)
Theorem debounce_burst_trailing {Args} (wait t0 : Z) (a0 : Args)
    (tr : list (Z * Args)) (fuel : nat) :
  0 <= wait < 2147483648 → 0 <= t0 → burstFrom wait t0 tr →
  ∃ l, debounceRun wait false (S fuel) ((t0, a0) :: tr) = Some l
       ∧ pending l = []
       ∧ dlog (st l) = [((default (t0, a0) (last tr)).1 + wait,
                         (default (t0, a0) (last tr)).2)].
Proof.
  intros Hw Ht0 Hb. unfold debounceRun, debounce. cbn [fst snd].
  rewrite first_activation by done.
  by apply (burst_run wait false Hw fuel tr t0 1 0 a0 []).
Qed.

Lemma debounce_burst_trailing_witness :
  ∃ l, debounceRun 250 false 1 [(0, "a"); (100, "b"); (300, "c"); (549, "d")] = Some l
       ∧ pending l = []
       ∧ dlog (st l) = [(799, "d")].
Proof.
  apply (debounce_burst_trailing 250 0 "a" [(100, "b"); (300, "c"); (549, "d")] 0);
    simpl; lia.
Defined.

(** X2: leading-edge debounce on any burst. With [immediate = true] and
    [wait] below 2^31 ms the same burst runs the callback exactly once,
    at the first activation and with its arguments; the later
    activations of the burst and the timer that ends it run nothing. *)
Theorem debounce_burst_leading {Args} (wait t0 : Z) (a0 : Args)
    (tr : list (Z * Args)) (fuel : nat) :
  0 <= wait < 2147483648 → 0 <= t0 → burstFrom wait t0 tr →
  ∃ l, debounceRun wait true (S fuel) ((t0, a0) :: tr) = Some l
       ∧ pending l = []
       ∧ dlog (st l) = [(t0, a0)].
Proof.
  intros Hw Ht0 Hb. unfold debounceRun, debounce. cbn [fst snd].
  rewrite first_activation by done.
  by apply (burst_run wait true Hw fuel tr t0 1 0 a0 [(t0, a0)]).
Qed.

Lemma debounce_burst_leading_witness :
  ∃ l, debounceRun 250 true 1 [(0, "a"); (100, "b"); (300, "c"); (549, "d")] = Some l
       ∧ pending l = []
       ∧ dlog (st l) = [(0, "a")].
Proof.
  apply (debounce_burst_leading 250 0 "a" [(100, "b"); (300, "c"); (549, "d")] 0);
    simpl; lia.
Defined.
End WrapperFacts.

(** ** The throttle on arbitrary traces *)

Module ThrottleFacts.
Import EventLoop Utils EventLoopFacts Traces ThrottleClock.
Local Open Scope Z_scope.

Section Pace.
Context {Args : Type}.
Variables (limit epoch : Z).
Hypothesis epoch_pos : 0 < epoch.

Local Abbreviation TLoop := (Loop (ThrottleTask Args) (ThrottleSt Args)).

Local Abbreviation paced := (@Traces.paced Args limit epoch).

Lemma spaced_snoc (log : list (Z * Args)) t a :
  spaced limit log →
  (∀ t0 a0, last log = Some (t0, a0) → limit <= t - t0) →
  spaced limit (log ++ [(t, a)]).
Proof.
  induction log as [|[t1 a1] log IH]; intros Hs Hl; [done|].
  destruct log as [|[t2 a2] log].
  - simpl. split; [|done]. by apply (Hl t1 a1).
  - destruct Hs as [H12 Hs]. split; [done|]. apply IH; [done|].
    intros t0 a0 E. apply (Hl t0 a0). by rewrite last_cons, E.
Qed.

Lemma runAndStamp_paced a (l : TLoop) :
  paced l →
  (∀ t0 a0, last (tlog (st l)) = Some (t0, a0) → limit <= now l - t0) →
  paced (runAndStamp epoch a l).
Proof.
  intros (HI & Hs & Hst) Hgap. split_and!.
  - by apply ThrottleShift.runAndStamp_inv.
  - destruct l as [n i p [lf lr lg]]. simpl in *. by apply spaced_snoc.
  - destruct l as [n i p [lf lr lg]]. unfold stamped, DateNow. simpl.
    by rewrite last_snoc.
Qed.

Lemma throttled_paced a (l : TLoop) : paced l → paced (throttled limit epoch a l).
Proof.
  intros HP. pose proof HP as (HI & Hs & Hst).
  unfold throttled. destruct (lastRan (st l)) as [r|] eqn:E; simpl.
  - pose proof (inv_ran _ _ HI r E) as Hr.
    destruct (Z.eqb_spec r 0) as [?|_]; [lia|]. simpl.
    pose proof (ThrottleShift.throttled_inv limit epoch epoch_pos a l HI) as HI'.
    unfold throttled in HI'. rewrite E in HI'. simpl in HI'.
    destruct (Z.eqb_spec r 0) as [?|_]; [lia|]. simpl in HI'.
    destruct l as [n i p [lf lr lg]]. simpl in *. subst lr.
    destruct lf; (split_and!; [exact HI'|done|done]).
  - apply runAndStamp_paced; [done|]. intros t0 a0 El.
    unfold stamped in Hst. by rewrite El, E in Hst.
Qed.

Lemma trailing_paced k (l : TLoop) : paced l → paced (trailing limit epoch k l).
Proof.
  intros HP. pose proof HP as (HI & Hs & Hst). destruct k as [a].
  unfold trailing. destruct (lastRan (st l)) as [r|] eqn:E; [|done].
  destruct (Z.leb_spec limit (DateNow epoch l - r)) as [Hle|_]; [|done].
  apply runAndStamp_paced; [done|]. intros t0 a0 El.
  unfold stamped in Hst. rewrite El, E in Hst. injection Hst as ->.
  unfold DateNow in Hle. lia.
Qed.

Lemma runTimers_paced n h (l l' : TLoop) :
  paced l → runTimers (trailing limit epoch) n h l = Some l' → paced l'.
Proof.
  revert l. induction n as [|n IH]; intros l HP; simpl.
  - destruct (earliest (pending l)) as [t|]; [destruct (reached h t)|];
      try done; intros [= <-]; destruct HP as (HI & Hs & Hst);
      (split_and!; [by apply ThrottleShift.settle_inv|by destruct h|by destruct h]).
  - destruct (earliest (pending l)) as [t|] eqn:E; [destruct (reached h t)|].
    + apply IH, trailing_paced. destruct HP as ([Hn Hd Hr] & Hs & Hst).
      split_and!; [|done|done].
      split; simpl; [|by apply ThrottleShift.Forall_filter_keep|done].
      apply earliest_elem_of in E.
      by apply (proj1 (Forall_forall _ _) Hd).
    + intros [= <-]. destruct HP as (HI & Hs & Hst).
      split_and!; [by apply ThrottleShift.settle_inv|by destruct h|by destruct h].
    + intros [= <-]. destruct HP as (HI & Hs & Hst).
      split_and!; [by apply ThrottleShift.settle_inv|by destruct h|by destruct h].
Qed.

Lemma runTrace_paced n tr (l l' : TLoop) :
  paced l →
  runTrace (trailing limit epoch) Args (throttled limit epoch) n tr l = Some l' →
  paced l'.
Proof.
  revert l. induction tr as [|[t a] tr IH]; intros l HP; simpl.
  - by apply runTimers_paced.
  - destruct (runTimers _ n (Some t) l) as [l1|] eqn:E; [|done].
    apply IH, throttled_paced. by eapply runTimers_paced.
Qed.
End Pace.

(** X3: the guarantee of the throttle, on any trace of activations: two
    consecutive executions of the callback are at least [limit] ms
    apart, and when the loop has stopped no timer is pending. *)
Theorem throttle_spaced {Args} (limit epoch : Z) (fuel : nat)
    (tr : list (Z * Args)) l :
  0 < epoch →
  throttleRun limit epoch fuel tr = Some l →
  spaced limit (tlog (st l)) ∧ pending l = [].
Proof.
  intros Hpos Hrun. split.
  - eapply (runTrace_paced limit epoch Hpos fuel tr); [|exact Hrun].
    split_and!; [split; simpl; [lia|constructor|done]|done|done].
  - by eapply runTrace_quiescent.
Qed.

Lemma throttle_spaced_witness :
  ∃ l, throttleRun 100 1700000000000 2
         [(0, "a"); (30, "b"); (99, "c"); (100, "d"); (250, "e"); (260, "f")] = Some l
       ∧ tlog (st l) = [(0, "a"); (100, "c"); (200, "d"); (300, "f")]
       ∧ spaced 100 (tlog (st l)) ∧ pending l = [].
Proof.
  destruct (throttleRun 100 1700000000000 2
              [(0, "a"); (30, "b"); (99, "c"); (100, "d"); (250, "e"); (260, "f")])
    as [l|] eqn:E; [|by vm_compute in E].
  exists l. split; [reflexivity|]. split.
  - vm_compute in E. injection E as <-. reflexivity.
  - apply (throttle_spaced 100 1700000000000 2
             [(0, "a"); (30, "b"); (99, "c"); (100, "d"); (250, "e"); (260, "f")]);
      [lia|exact E].
Defined.

(** X4: what the throttle runs, and when, does not depend on the value
    of the wall clock at the start, as long as that value is positive. *)
Theorem throttle_epoch_independent {Args} (limit e e' : Z) (fuel : nat)
    (tr : list (Z * Args)) :
  0 < e → 0 < e' →
  (λ l, (pending l, tlog (st l))) <$> throttleRun limit e fuel tr
  = (λ l, (pending l, tlog (st l))) <$> throttleRun limit e' fuel tr.
Proof.
  intros He He'. replace e' with (e + (e' - e)) by lia.
  rewrite (ThrottleShift.throttleRun_shift limit e (e' - e)) by lia.
  by destruct (throttleRun limit e fuel tr).
Qed.

Lemma throttle_epoch_independent_witness :
  (λ l, (pending l, tlog (st l))) <$>
    throttleRun 16 1 3 [(0, "a"); (5, "b"); (40, "c")]
  = (λ l, (pending l, tlog (st l))) <$>
    throttleRun 16 1700000000000 3 [(0, "a"); (5, "b"); (40, "c")].
Proof. apply throttle_epoch_independent; lia. Defined.
End ThrottleFacts.

(** ** More on the product tabs *)

Module ProductTabsMore.
Import Dom ProductTabs DomFacts ProductTabsFacts.

Lemma isActive_mark_clicked this b (doc : list Element) :
  b < length doc → isActive (mark this b doc) b = true.
Proof.
  intros Hb. apply lookup_lt_is_Some_2 in Hb as [e He].
  unfold isActive. rewrite mark_imap, list_lookup_imap, He. simpl.
  unfold markElem. rewrite decide_True by done. apply contains_add_eq.
Qed.

Lemma marked_once this el type (doc : list Element) :
  NoDup (tabButtons this) → el ∈ tabButtons this → el < length doc →
  activeCount this (render type (mark this el doc)) = 1
  ∧ isActive (render type (mark this el doc)) el = true.
Proof.
  intros Hnd Hel Hlt.
  assert (isActive (render type (mark this el doc)) el = true) as Hact.
  { rewrite isActive_render. by apply isActive_mark_clicked. }
  split; [|done].
  assert (activeCount this (render type (mark this el doc)) ≤ 1) as Hle.
  { rewrite (activeCount_ext this (mark this el doc))
      by (intros; apply isActive_render).
    by apply activeCount_mark. }
  assert (0 < activeCount this (render type (mark this el doc))) as Hge.
  { unfold activeCount.
    assert (el ∈ filter (λ j, isActive (render type (mark this el doc)) j = true)
                        (tabButtons this)) as Hin
      by (by apply list_elem_of_filter).
    destruct (filter _ (tabButtons this)); [by apply elem_of_nil in Hin|].
    simpl. lia. }
  lia.
Qed.

(** X5: a click on a tab control leaves exactly one tab control marked
    active, whatever was marked before. *)
Theorem click_exactly_one_active (el : nat) (doc : list Element) :
  let this := mkProductTabs (querySelectorAll (ByClasses ["tab-button"]) doc) in
  el ∈ tabButtons this →
  activeCount this (click this el doc).1 = 1
  ∧ isActive (click this el doc).1 el = true.
Proof.
  intros this Hel.
  assert (el < length doc) as Hlt by (by apply allFrom_lt in Hel).
  assert ((click this el doc).1
          = render (getAttribute_dataTab el doc) (mark this el doc)) as E.
  { unfold click. rewrite bool_decide_eq_true_2 by done.
    by rewrite switchTab_closed. }
  rewrite E. apply marked_once; [|done..].
  apply querySelectorAll_NoDup.
Qed.

Lemma click_exactly_one_active_witness :
  let doc := [mkElement ["tab-button"; "active"] (Some "scooters") [];
              mkElement ["tab-button"; "active"] (Some "bikes") [];
              mkElement ["tab-button"] (Some "mopeds") []] in
  let this := mkProductTabs (querySelectorAll (ByClasses ["tab-button"]) doc) in
  activeCount this doc = 2
  ∧ activeCount this (click this 2 doc).1 = 1
  ∧ isActive (click this 2 doc).1 2 = true.
Proof.
  split; [reflexivity|].
  apply (click_exactly_one_active 2). vm_compute. right. right. left.
Defined.

(** X6: what selecting a tab never touches. Every element stays in
    place and keeps its [data-tab] attribute and every class other than
    [active]; only the render target changes its children; an element
    that is neither a tab control nor the selected one keeps its class
    list. *)
Theorem switchTab_frame this b (doc : list Element) :
  let doc' := (switchTab this b doc).1 in
  length doc' = length doc
  ∧ ∀ j e, doc !! j = Some e →
      ∃ e', doc' !! j = Some e'
        ∧ dataTab e' = dataTab e
        ∧ (∀ c, c ≠ "active" → contains c e' = contains c e)
        ∧ (querySelector modelsGrid doc ≠ Some j → children e' = children e)
        ∧ (j ∉ tabButtons this → j ≠ b → classList e' = classList e).
Proof.
  simpl. rewrite switchTab_closed. simpl.
  assert (∀ type j e, doc !! j = Some e →
            ∃ e1 e2, mark this b doc !! j = Some e1
              ∧ render type (mark this b doc) !! j = Some e2
              ∧ e1 = markElem this b j e
              ∧ classList e2 = classList e1 ∧ dataTab e2 = dataTab e1
              ∧ (querySelector modelsGrid doc ≠ Some j → children e2 = children e1))
    as Hpt.
  { intros type j e He. exists (markElem this b j e).
    assert (mark this b doc !! j = Some (markElem this b j e)) as Hm
      by (by rewrite mark_imap, list_lookup_imap, He).
    unfold render. rewrite query_mark by apply modelsGrid_untouched.
    destruct (querySelector modelsGrid doc) as [g|].
    - rewrite list_lookup_alter. destruct (decide (g = j)) as [->|Hne].
      + rewrite Hm. eexists. by split_and!.
      + eexists. by split_and!.
    - eexists. by split_and!. }
  split.
  - assert (length (mark this b doc) = length doc) as Hm
      by (by rewrite mark_imap, length_imap).
    unfold render. destruct (querySelector modelsGrid (mark this b doc));
      [by rewrite length_alter|done].
  - intros j e He.
    destruct (Hpt (getAttribute_dataTab b doc) j e He)
      as (e1 & e2 & _ & H2 & -> & Hcl & Hdt & Hch).
    exists e2. split; [done|]. unfold contains. rewrite Hcl, Hdt.
    split_and!.
    + unfold markElem. repeat case_decide; simpl; unfold classList_add;
        try destruct (contains _ _); done.
    + intros c Hc. fold (contains c (markElem this b j e)). unfold markElem.
      case_decide; simpl; rewrite ?contains_add_ne by done;
        case_decide; simpl; by rewrite ?contains_remove_ne by done.
    + intros Hg. rewrite Hch by done. unfold markElem.
      repeat case_decide; simpl; unfold classList_add;
        try destruct (contains _ _); done.
    + intros Hj Hb. unfold markElem.
      rewrite decide_False by done. by rewrite decide_False by done.
Qed.

(** Selecting a control whose key the table has, in closed form. *)
Lemma switchTab_renders this b k ps (doc : list Element) :
  getAttribute_dataTab b doc = Some k →
  productData !! k = Some ps →
  is_Some (querySelector modelsGrid doc) →
  (switchTab this b doc).2 = Return tt
  ∧ renderTarget (switchTab this b doc).1 = Some (createProductCard <$> ps).
Proof.
  intros Hb Hps [g Hg]. rewrite switchTab_closed, Hb. simpl.
  pose proof (getProductData_known k ps Hps) as Hdata.
  split.
  - unfold outcome. rewrite query_mark by apply modelsGrid_untouched.
    by rewrite Hg, Hdata.
  - rewrite renderTarget_render.
    + unfold cardsFor. by rewrite Hdata.
    + rewrite query_mark by apply modelsGrid_untouched. by exists g.
Qed.

(** X7: a key that is neither a category nor a member of
    [Object.prototype] ([null] and the empty string among them) is not
    an error: [loadTabContent] returns normally and the render target
    shows the cards of the scooters, as for the key [scooters]. *)
Theorem unknown_key_renders_default type (doc : list Element) :
  toPropertyKey type ∉ knownCategories →
  toPropertyKey type ∉ prototypeMethods →
  toPropertyKey type ≠ "__proto__" →
  is_Some (querySelector modelsGrid doc) →
  loadTabContent type doc = loadTabContent (Some "scooters") doc
  ∧ (loadTabContent type doc).2 = Return tt
  ∧ (length <$> renderTarget (loadTabContent type doc).1) = Some 3.
Proof.
  intros Hk Hp Hproto Hgrid.
  destruct (selectCategory_fallback type doc) as (ps & Hps & E & Hr);
    [by apply getProperty_undefined|done|].
  assert (loadTabContent (Some "scooters") doc
          = (render (Some "scooters") doc, Return tt)) as E'.
  { rewrite loadTabContent_closed. f_equal. unfold outcome.
    destruct Hgrid as [g ->].
    by rewrite (getProductData_known "scooters" ps Hps). }
  rewrite E, E'. split_and!; [done|done|].
  rewrite E in Hr. simpl in Hr. simpl. rewrite Hr.
  injection Hps as <-. done.
Qed.

Lemma unknown_key_renders_default_witness :
  let doc := [mkElement ["models-grid"] None [mkNode "product-card" "old"]] in
  loadTabContent None doc = loadTabContent (Some "scooters") doc
  ∧ (loadTabContent None doc).2 = Return tt
  ∧ (length <$> renderTarget (loadTabContent None doc).1) = Some 3.
Proof.
  apply (unknown_key_renders_default None).
  - unfold knownCategories. rewrite !not_elem_of_cons. split_and!; try done.
    apply not_elem_of_nil.
  - unfold prototypeMethods. rewrite !not_elem_of_cons. split_and!; try done.
    apply not_elem_of_nil.
  - done.
  - by exists 0.
Defined.

Lemma switchTab_frame_witness :
  let doc := [mkElement ["tab-button"; "big"] (Some "bikes") [];
              mkElement ["models-grid"; "active"] None [mkNode "x" "y"];
              mkElement ["note"; "active"] (Some "n") [mkNode "p" "q"]] in
  let doc' := (switchTab (mkProductTabs [0]) 0 doc).1 in
  length doc' = 3
  ∧ ∃ e', doc' !! 2 = Some e'
      ∧ dataTab e' = Some "n"
      ∧ children e' = [mkNode "p" "q"]
      ∧ classList e' = ["note"; "active"].
Proof.
  intros doc doc'.
  destruct (switchTab_frame (mkProductTabs [0]) 0 doc) as [Hlen Hel].
  split; [exact Hlen|].
  destruct (Hel 2 (mkElement ["note"; "active"] (Some "n") [mkNode "p" "q"]) eq_refl)
    as (e' & He' & Hdt & _ & Hch & Hcl).
  exists e'. split_and!; [exact He'|exact Hdt| |].
  - apply Hch. by vm_compute.
  - apply Hcl; [|done]. simpl. rewrite list_elem_of_singleton. done.
Defined.

(** X8: constructing the widget with a default tab. When a tab control
    is marked active in the markup, its key is a known category and the
    page has a render target, [init] returns the widget holding all tab
    controls, the render target shows the cards of that category, and
    no class list has changed. *)
Theorem init_renders_default b k (doc : list Element) :
  querySelector (ByClasses ["tab-button"; "active"]) doc = Some b →
  getAttribute_dataTab b doc = Some k →
  k ∈ knownCategories →
  is_Some (querySelector modelsGrid doc) →
  ∃ ps, productData !! k = Some ps
    ∧ (init doc).2
      = Return (mkProductTabs (querySelectorAll (ByClasses ["tab-button"]) doc))
    ∧ renderTarget (init doc).1 = Some (createProductCard <$> ps)
    ∧ ∀ j, classList <$> (init doc).1 !! j = classList <$> doc !! j.
Proof.
  intros Hb Hk Hknown [g Hg].
  destruct (productData_known k Hknown) as (ps & Hps & _). exists ps.
  pose proof (getProductData_known k ps Hps) as Hdata.
  assert (init doc = (render (Some k) doc,
                      Return (mkProductTabs
                                (querySelectorAll (ByClasses ["tab-button"]) doc))))
    as E.
  { unfold init, loadDefaultTab, bind, gets, ret. simpl. rewrite Hb, Hk.
    rewrite loadTabContent_closed. unfold outcome. by rewrite Hg, Hdata. }
  rewrite E. simpl. split_and!; [done|done| |].
  - rewrite renderTarget_render by by exists g.
    unfold cardsFor. by rewrite Hdata.
  - intros j. unfold render. rewrite Hg, list_lookup_alter.
    case_decide; [subst|done]. by destruct (doc !! j).
Qed.

Lemma init_renders_default_witness :
  let doc := [mkElement ["tab-button"] (Some "scooters") [];
              mkElement ["tab-button"; "active"] (Some "mopeds") [];
              mkElement ["models-grid"] None []] in
  ∃ ps, productData !! "mopeds" = Some ps
    ∧ (init doc).2 = Return (mkProductTabs [0; 1])
    ∧ renderTarget (init doc).1 = Some (createProductCard <$> ps)
    ∧ ∀ j, classList <$> (init doc).1 !! j = classList <$> doc !! j.
Proof.
  apply (init_renders_default 1 "mopeds").
  - reflexivity.
  - reflexivity.
  - unfold knownCategories. right. right. left.
  - by exists 2.
Defined.

(** X9: a page without a render target. Selecting a tab then never
    throws, whatever the key (also for a key such as [constructor]),
    changes no children, and still marks the selected control. *)
Theorem switchTab_without_grid this b (doc : list Element) :
  querySelector modelsGrid doc = None →
  (switchTab this b doc).2 = Return tt
  ∧ (∀ j, children <$> (switchTab this b doc).1 !! j = children <$> doc !! j)
  ∧ (b < length doc → isActive (switchTab this b doc).1 b = true).
Proof.
  intros Hg. rewrite switchTab_closed. simpl.
  unfold outcome, render. rewrite query_mark by apply modelsGrid_untouched.
  rewrite Hg. split_and!; [done| |by apply isActive_mark_clicked].
  intros j. rewrite mark_imap, list_lookup_imap.
  destruct (doc !! j) as [e|]; [|done]. simpl. f_equal.
  unfold markElem. repeat case_decide; simpl; unfold classList_add;
    try destruct (contains _ _); done.
Qed.

Lemma switchTab_without_grid_witness :
  let doc := [mkElement ["tab-button"] (Some "constructor") [mkNode "icon" "i"]] in
  (switchTab (mkProductTabs [0]) 0 doc).2 = Return tt
  ∧ (∀ j, children <$> (switchTab (mkProductTabs [0]) 0 doc).1 !! j
          = children <$> doc !! j)
  ∧ (0 < length doc → isActive (switchTab (mkProductTabs [0]) 0 doc).1 0 = true).
Proof. apply switchTab_without_grid. reflexivity. Defined.
End ProductTabsMore.

(** ** More on the public method [switchTab] *)

Module PublicApiFacts.
Import Dom ProductTabs DomFacts ProductTabsFacts ProductTabsMore.

(** X10: the public [switchTab(name)] for a category on the page. When
    the first element carrying [data-tab = name] is a tab control of the
    widget and the name is a known category, the call does what a click
    on that control does: it returns normally, the render target shows
    the cards of the category, and that control is the one tab control
    marked active. *)
Theorem public_switchTab_known (b : nat) (k : string) (doc : list Element) :
  let this := mkProductTabs (querySelectorAll (ByClasses ["tab-button"]) doc) in
  querySelector (ByDataTab k) doc = Some b →
  b ∈ tabButtons this →
  k ∈ knownCategories →
  is_Some (querySelector modelsGrid doc) →
  let result := ElectroPowerApp.switchTab (Some this) k doc in
  ∃ ps, productData !! k = Some ps
    ∧ result = click this b doc
    ∧ result.2 = Return tt
    ∧ renderTarget result.1 = Some (createProductCard <$> ps)
    ∧ activeCount this result.1 = 1
    ∧ isActive result.1 b = true.
Proof.
  intros this Hq Hb Hk Hgrid.
  destruct (productData_known k Hk) as (ps & Hps & _).
  assert (ElectroPowerApp.switchTab (Some this) k doc = switchTab this b doc) as E.
  { unfold ElectroPowerApp.switchTab, bind, gets. simpl. by rewrite Hq. }
  assert (click this b doc = switchTab this b doc) as Ec.
  { unfold click. by rewrite bool_decide_eq_true_2. }
  assert (getAttribute_dataTab b doc = Some k) as Hattr.
  { destruct (querySelector_Some _ _ _ Hq) as (e & He & Hm).
    unfold getAttribute_dataTab. rewrite He. simpl in *.
    by apply bool_decide_eq_true in Hm. }
  destruct (switchTab_renders this b k ps doc Hattr Hps Hgrid) as [Hret Hrt].
  assert (b < length doc) as Hlt by (by apply allFrom_lt in Hb).
  destruct (marked_once this b (Some k) doc
              (querySelectorAll_NoDup _ _) Hb Hlt) as [Hone Hact].
  assert ((switchTab this b doc).1 = render (Some k) (mark this b doc)) as Er
    by (by rewrite switchTab_closed, Hattr).
  rewrite <- Er in Hone, Hact.
  simpl. exists ps. rewrite E. by split_and!.
Qed.

Lemma public_switchTab_known_witness :
  let doc := [mkElement ["tab-button"; "active"] (Some "scooters") [];
              mkElement ["tab-button"] (Some "bikes") [];
              mkElement ["models-grid"] None []] in
  let this := mkProductTabs (querySelectorAll (ByClasses ["tab-button"]) doc) in
  let result := ElectroPowerApp.switchTab (Some this) "bikes" doc in
  ∃ ps, productData !! "bikes" = Some ps
    ∧ result = click this 1 doc
    ∧ result.2 = Return tt
    ∧ renderTarget result.1 = Some (createProductCard <$> ps)
    ∧ activeCount this result.1 = 1
    ∧ isActive result.1 1 = true.
Proof.
  apply (public_switchTab_known 1 "bikes").
  - reflexivity.
  - vm_compute. right. left.
  - unfold knownCategories. right. left.
  - by exists 2.
Defined.
End PublicApiFacts.

(** ** More on the composer *)

Module ComposerMore.
Import ElectroPowerApp ElectroPowerAppFacts.

Section Outcomes.
Context {World : Type}.
Variable construct : Widget → Js (Browser World) unit.

(** Whatever the constructors do, the sequence of assignments runs them
    as [constructAll] does, registers the widgets before the first throw
    and changes nothing else of the application object. *)
Lemma forEach_newComponent_run (ws : list Widget) (a : App World) :
  browser (forEach (newComponent construct) ws a).1
  = (constructAll construct ws (browser a)).1
  ∧ (forEach (newComponent construct) ws a).2
    = (constructAll construct ws (browser a)).2
  ∧ bodyLoaded (forEach (newComponent construct) ws a).1 = bodyLoaded a
  ∧ ∃ pre post,
      ws = pre ++ post
      ∧ components (forEach (newComponent construct) ws a).1
        = registerAll pre (components a)
      ∧ (post = [] ↔ (constructAll construct ws (browser a)).2 = Return tt).
Proof.
  unfold constructAll. revert a. induction ws as [|x ws IH]; intros a.
  - split_and!; [by destruct a|done|done|]. exists [], []. by destruct a.
  - cbn [forEach]. unfold bind, newComponent at 1 3 5 7.
    destruct (construct x (browser a)) as [[lg1 w1] [[]|e]].
    + destruct (IH (mkApp (<[componentKey x:=x]> (components a)) lg1
                          (bodyLoaded a) w1))
        as (Hb & Hr & Hl & pre & post & Hws & Hc & Hp).
      split_and!; [done|done|done|].
      exists (x :: pre), post. split_and!; [by rewrite Hws|done|done].
    + split_and!; [done|done|done|].
      exists [], (x :: ws). split_and!; [done|done|]. by split.
Qed.
End Outcomes.

(** X11: when all six constructors return, the composer returns
    normally, every widget is registered under its key, the success
    message is the last console entry, after what the constructors
    logged, and the body gets the class [loaded]. *)
Theorem initializeComponents_all_succeed {World : Type}
    (construct : Widget → Js (Browser World) unit) (page : World)
    (b' : Browser World) :
  constructAll construct constructionOrder (mkBrowser [] page) = (b', Return tt) →
  let result := initializeComponents construct (newApp page) in
  result.2 = Return tt
  ∧ console result.1
    = logged b' ++ [ConsoleLog "✅ Electro Power App initialized successfully"]
  ∧ bodyLoaded result.1 = true
  ∧ world result.1 = dom b'
  ∧ ∀ w, initialized result.1 w = true.
Proof.
  intros Hall.
  assert (initializeComponents construct (newApp page)
          = (mkApp (registerAll constructionOrder ∅)
               (logged b'
                  ++ [ConsoleLog "✅ Electro Power App initialized successfully"])
               true (dom b'), Return tt)) as E.
  { rewrite initializeComponents_unfold. unfold tryCatch, bind at 1.
    by rewrite (forEach_newComponent_ok construct constructionOrder
                  (newApp page) b'). }
  cbv zeta. rewrite E. cbn [fst snd console bodyLoaded world].
  split_and!; try done.
  intros w. unfold initialized. cbn [components]. rewrite registerAll_lookup.
  destruct (decide (w ∈ constructionOrder)) as [_|Hw];
    [by apply bool_decide_eq_true_2|].
  exfalso. apply Hw. unfold constructionOrder. rewrite !elem_of_cons.
  destruct w; tauto.
Qed.

Lemma initializeComponents_all_succeed_witness :
  let result := initializeComponents allReturn (newApp tt) in
  result.2 = Return tt
  ∧ console result.1
    = [ConsoleLog "Page view tracked: /index.html";
       ConsoleLog "✅ Electro Power App initialized successfully"]
  ∧ bodyLoaded result.1 = true
  ∧ world result.1 = tt
  ∧ ∀ w, initialized result.1 w = true.
Proof.
  by apply (initializeComponents_all_succeed allReturn tt
              (mkBrowser [ConsoleLog "Page view tracked: /index.html"] tt)).
Defined.

(** X12: the composer never lets an exception out. Whatever the
    constructors do, [initializeComponents] returns normally; the page is
    as the constructors left it, and after what they logged the composer
    writes exactly one entry: the success message when all of them
    returned, the error otherwise. The registered widgets are the ones
    of a prefix of the construction order, the whole order exactly when
    all constructors returned, and exactly then the body gets the class
    [loaded]. *)
Theorem initializeComponents_never_throws {World : Type}
    (construct : Widget → Js (Browser World) unit) (page : World) :
  let result := initializeComponents construct (newApp page) in
  let built := constructAll construct constructionOrder (mkBrowser [] page) in
  result.2 = Return tt
  ∧ world result.1 = dom built.1
  ∧ console result.1 = logged built.1 ++ [composerEntry built.2]
  ∧ ∃ pre post,
      constructionOrder = pre ++ post
      ∧ (post = [] ↔ built.2 = Return tt)
      ∧ (∀ w, initialized result.1 w = bool_decide (w ∈ pre))
      ∧ bodyLoaded result.1 = bool_decide (post = []).
Proof.
  destruct (forEach_newComponent_run construct constructionOrder (newApp page))
    as (Hb & Hr & Hl & pre & post & Hord & Hc & Hp).
  change (browser (newApp page)) with (mkBrowser [] page) in Hb, Hr, Hp.
  destruct (constructAll construct constructionOrder (mkBrowser [] page))
    as [b c] eqn:Hbuilt.
  destruct (forEach (newComponent construct) constructionOrder (newApp page))
    as [a' c'] eqn:Hfe.
  cbn [fst snd newApp components bodyLoaded] in Hb, Hr, Hl, Hc, Hp.
  subst c'. destruct a' as [cs lg bl w']. unfold browser in Hb.
  cbn [console world components bodyLoaded] in Hb, Hc, Hl. subst b bl cs.
  assert (∀ w, bool_decide (registerAll pre ∅ !! componentKey w = Some w)
               = bool_decide (w ∈ pre)) as Hinit.
  { intros w. rewrite registerAll_lookup.
    destruct (decide (w ∈ pre)) as [Hw|Hw].
    - by rewrite !bool_decide_eq_true_2.
    - rewrite lookup_empty. by rewrite !bool_decide_eq_false_2. }
  destruct c as [[]|e].
  - assert (initializeComponents construct (newApp page)
            = (mkApp (registerAll pre ∅)
                 (lg ++ [ConsoleLog "✅ Electro Power App initialized successfully"])
                 true w', Return tt)) as E.
    { rewrite initializeComponents_unfold. unfold tryCatch, bind at 1.
      by rewrite Hfe. }
    cbv zeta. rewrite E. cbn [fst snd console bodyLoaded world logged dom].
    split_and!; [done|done|done|].
    exists pre, post. split_and!; [done|done|exact Hinit|].
    rewrite bool_decide_eq_true_2; [done|]. by apply Hp.
  - assert (initializeComponents construct (newApp page)
            = (mkApp (registerAll pre ∅)
                 (lg ++ [ConsoleError "❌ Error initializing Electro Power App:" e])
                 false w', Return tt)) as E.
    { rewrite initializeComponents_unfold. unfold tryCatch, bind at 1.
      by rewrite Hfe. }
    cbv zeta. rewrite E. cbn [fst snd console bodyLoaded world logged dom].
    split_and!; [done|done|done|].
    exists pre, post. split_and!; [done|done|exact Hinit|].
    rewrite bool_decide_eq_false_2; [done|]. intros Hnil. by apply Hp in Hnil.
Qed.

Lemma initializeComponents_never_throws_witness :
  let result := initializeComponents formHandlerThrows (newApp tt) in
  result.2 = Return tt
  ∧ console result.1
    = [ConsoleError "❌ Error initializing Electro Power App:"
         (TypeError "document.querySelector is not a function")]
  ∧ bodyLoaded result.1 = false.
Proof.
  destruct (initializeComponents_never_throws formHandlerThrows tt)
    as (H1 & _ & H3 & _).
  split_and!; [exact H1|exact H3|reflexivity].
Defined.
End ComposerMore.

(** ** More on the consultation form *)

Module FormHandlerMore.
Import EventLoop FormHandler EventLoopFacts FormHandlerFacts Toasts.
Local Open Scope Z_scope.

Lemma runTimers_step n h (l : PLoop) t :
  earliest (pending l) = Some t → reached h t = true →
  runTimers fire (S n) h l
  = runTimers fire n h
      (fire (task t)
         (mkLoop (due t) (nextId l)
                 (filter (λ u, tid u ≠ tid t) (pending l)) (st l))).
Proof. intros He Hr. simpl. by rewrite He, Hr. Qed.

Lemma runTimers_idle n h (l : PLoop) :
  pending l = [] → runTimers fire n h l = Some (settle h l).
Proof. intros Hp. destruct n; simpl; by rewrite Hp. Qed.

Lemma alter_last {A} (f : A → A) (l : list A) (x : A) :
  alter f (length l) (l ++ [x]) = l ++ [f x].
Proof. induction l as [|y l IH]; simpl; [done|]. by f_equal. Qed.

(** A type that [colors] only inherits gets no colour; a type found
    nowhere gets the colour of [info]. *)
Example toast_inherited_type :
  nBackgroundColor (toast "saved" "constructor") = EmptyString
  ∧ nBackgroundColor (toast "saved" "__proto__") = EmptyString
  ∧ nBackgroundColor (toast "saved" "urgent") = "#17a2b8"
  ∧ nBackgroundColor (toast "saved" "warning") = "#ffc107".
Proof. by vm_compute. Qed.

(** The loop right after [showNotification] on a fresh page. *)
Lemma showNotification_start message type (p : Page) :
  (showNotification message type (start p)).1
  = mkLoop 0 3
      [mkTimer 1 100 (AnimateIn (length (notifications p)));
       mkTimer 2 5000 (AutoRemove (length (notifications p)))]
      (mkPage (form p) (notifications p ++ [toast message type])
              (journal p ++ [ENotify type; ESetTimeout 100; ESetTimeout 5000])).
Proof. by rewrite showNotification_closed. Qed.

(** X13: the life of a toast. Shown on a page with nothing pending, it
    is in the document and off screen until 100 ms, slid in from 100 ms
    until 5000 ms, slid out at 5000 ms and taken out of the document at
    5300 ms, after which the loop is idle. The toasts shown before it
    are not touched. *)
Theorem toast_lifecycle (message type : string) (p : Page) (fuel : nat) :
  let l0 := (showNotification message type (start p)).1 in
  let others := notifications p in
  (∀ h, 0 <= h < 100 →
     (λ l, notifications (st l)) <$> runTimers fire fuel (Some h) l0
     = Some (others ++ [toast message type]))
  ∧ (∀ h, 100 <= h < 5000 →
     (λ l, notifications (st l)) <$> runTimers fire (S fuel) (Some h) l0
     = Some (others ++ [slidIn (toast message type)]))
  ∧ (∀ h, 5000 <= h < 5300 →
     (λ l, notifications (st l)) <$> runTimers fire (S (S fuel)) (Some h) l0
     = Some (others ++ [slidOut (toast message type)]))
  ∧ (λ l, (now l, pending l, notifications (st l))) <$>
      runTimers fire (S (S (S fuel))) None l0
    = Some (5300, [], others ++ [detached (slidOut (toast message type))]).
Proof.
  cbv zeta. rewrite showNotification_start.
  split_and!.
  - intros h [_ Hh].
    erewrite runTimers_not_reached; [done|reflexivity|].
    simpl. apply Z.leb_gt. lia.
  - intros h [Hh1 Hh2].
    erewrite runTimers_step; [|reflexivity|simpl; apply Z.leb_le; lia].
    erewrite runTimers_not_reached; [|reflexivity|simpl; apply Z.leb_gt; lia].
    simpl. f_equal. apply alter_last.
  - intros h [Hh1 Hh2].
    erewrite runTimers_step; [|reflexivity|simpl; apply Z.leb_le; lia].
    erewrite runTimers_step; [|reflexivity|simpl; apply Z.leb_le; lia].
    erewrite runTimers_not_reached;
      [|reflexivity
       |simpl; change (timerDelay 300) with 300; apply Z.leb_gt; lia].
    simpl. f_equal. by rewrite !alter_last.
  - do 3 (erewrite runTimers_step; [|reflexivity..]).
    rewrite runTimers_idle by reflexivity.
    simpl. do 2 f_equal. by rewrite !alter_last.
Qed.

Lemma toast_lifecycle_witness :
  let p := mkPage (mkForm [] []) [toast "earlier" "info"] [] in
  let l0 := (showNotification "saved" "success" (start p)).1 in
  (λ l, notifications (st l)) <$> runTimers fire 0 (Some 50) l0
  = Some [toast "earlier" "info"; toast "saved" "success"]
  ∧ (λ l, notifications (st l)) <$> runTimers fire 1 (Some 2500) l0
    = Some [toast "earlier" "info"; slidIn (toast "saved" "success")]
  ∧ (λ l, notifications (st l)) <$> runTimers fire 2 (Some 5100) l0
    = Some [toast "earlier" "info"; slidOut (toast "saved" "success")]
  ∧ (λ l, (now l, pending l, notifications (st l))) <$> runTimers fire 3 None l0
    = Some (5300, [], [toast "earlier" "info";
                       detached (slidOut (toast "saved" "success"))]).
Proof.
  intros p l0.
  destruct (toast_lifecycle "saved" "success" p 0) as (H1 & H2 & H3 & H4).
  split_and!; [apply H1; lia|apply H2; lia|apply H3; lia|exact H4].
Defined.

(** X14: a valid submission on a form without a [button[type=submit]].
    The TypeError raised on the missing button is caught inside
    [submitConsultationRequest]: the handler returns normally, shows the
    error toast and nothing else happens: no latency timer is started
    and the form is left as it is. *)
Theorem submit_without_button (l : PLoop) (name phone : string) :
  readField "name" "text" (form (st l)) = Return name →
  readField "phone" "tel" (form (st l)) = Return phone →
  name ≠ EmptyString → phone ≠ EmptyString →
  querySelector_submit (form (st l)) = None →
  let l' := (handleConsultationSubmit l).1 in
  (handleConsultationSubmit l).2 = Return tt
  ∧ form (st l') = form (st l)
  ∧ notifications (st l')
    = notifications (st l) ++ [toast "Произошла ошибка. Попробуйте еще раз." "error"]
  ∧ filter (λ t, isResume t = true) (pending l')
    = filter (λ t, isResume t = true) (pending l)
  ∧ journal (st l')
    = journal (st l) ++ [EPreventDefault; ENotify "error";
                         ESetTimeout 100; ESetTimeout 5000].
Proof.
  intros Hname Hphone Hn Hp Hb.
  assert (handleConsultationSubmit l
          = showNotification "Произошла ошибка. Попробуйте еще раз." "error"
              (setSt (λ p, mkPage (form p) (notifications p)
                             (journal p ++ [EPreventDefault])) l)) as E.
  { destruct l as [t i ts [f ns jr]]; simpl in *.
    unfold handleConsultationSubmit, record, bind, gets, modify; simpl.
    rewrite Hname, Hphone, (isEmpty_false _ Hn), (isEmpty_false _ Hp). simpl.
    unfold submitConsultationRequest, tryCatch, bind, gets, throw; simpl.
    by rewrite Hb. }
  simpl. rewrite E, showNotification_closed.
  destruct l as [t i ts [f ns jr]]; simpl.
  split_and!; try done.
  - rewrite filter_app. apply app_nil_r.
  - by rewrite <- app_assoc.
Qed.

Lemma submit_without_button_witness :
  let f := mkForm [mkInput (Some "text") (Some "name") "A" EmptyString;
                   mkInput (Some "tel") (Some "phone") "123" EmptyString]
                  [mkButton None "Send" false] in
  let l : PLoop := start (mkPage f [] []) in
  (handleConsultationSubmit l).2 = Return tt
  ∧ form (st (handleConsultationSubmit l).1) = f
  ∧ notifications (st (handleConsultationSubmit l).1)
    = [toast "Произошла ошибка. Попробуйте еще раз." "error"]
  ∧ filter (λ t, isResume t = true) (pending (handleConsultationSubmit l).1) = [].
Proof.
  intros f l.
  destruct (submit_without_button l "A" "123") as (H1 & H2 & H3 & H4 & _);
    try done.
Defined.

(** X15: a form without the control a field is read from. When the
    form has no filled control named [n] and no [input] of the type,
    reading the field throws a TypeError; the handler lets it out before
    any validation: no toast, no timer, form untouched. This holds for
    the name, and for the phone once the name was read. *)
Theorem submit_missing_control (l : PLoop) (e : JsError) :
  readField "name" "text" (form (st l)) = Throw e
  ∨ (∃ name, readField "name" "text" (form (st l)) = Return name
             ∧ readField "phone" "tel" (form (st l)) = Throw e) →
  handleConsultationSubmit l
  = (setSt (λ p, mkPage (form p) (notifications p)
                   (journal p ++ [EPreventDefault])) l,
     Throw e).
Proof.
  intros H. destruct l as [t i ts [f ns jr]]; simpl in *.
  unfold handleConsultationSubmit, record, bind, gets, modify; simpl.
  destruct H as [-> | (name & -> & ->)]; done.
Qed.

(** Reading a field throws exactly when the named control is absent or
    empty and no [input] of the type exists. *)
Lemma readField_throws n ty f :
  (FormData_get n f = None ∨ FormData_get n f = Some EmptyString) →
  querySelector_input ty f = None →
  readField n ty f
  = Throw (TypeError "Cannot read properties of null (reading 'value')").
Proof. unfold readField. by intros [-> | ->] ->. Qed.

Lemma submit_missing_control_witness :
  let f := mkForm [mkInput None (Some "name") EmptyString EmptyString;
                   mkInput (Some "tel") None "123" EmptyString]
                  [mkButton (Some "submit") "Send" false] in
  handleConsultationSubmit (start (mkPage f [] []))
  = (start (mkPage f [] [EPreventDefault]),
     Throw (TypeError "Cannot read properties of null (reading 'value')")).
Proof.
  intros f. apply (submit_missing_control (start (mkPage f [] []))).
  left. apply readField_throws; [by right|reflexivity].
Defined.

(** *** The timer queue of the form handler always drains *)

Lemma weight_app ts ts' : weight (ts ++ ts') = (weight ts + weight ts')%nat.
Proof. apply sum_list_with_app. Qed.

Lemma weight_filter_out (P : Timer Task → Prop) `{∀ t, Decision (P t)} ts t :
  t ∈ ts → ¬ P t →
  (weight (filter P ts) + taskWeight (task t) ≤ weight ts)%nat.
Proof.
  intros Hin HnP. induction ts as [|u ts IH]; [by apply elem_of_nil in Hin|].
  rewrite filter_cons. unfold weight in *. simpl.
  apply elem_of_cons in Hin as [<-|Hin].
  - rewrite decide_False by done.
    assert (sum_list_with (λ t, taskWeight (task t)) (filter P ts)
            ≤ sum_list_with (λ t, taskWeight (task t)) ts)%nat; [|lia].
    clear. induction ts as [|v ts IH]; [done|].
    rewrite filter_cons. case_decide; simpl; lia.
  - specialize (IH Hin). case_decide; simpl; lia.
Qed.

(** A callback leaves the pending timers alone and adds the ones it
    starts, which weigh less than itself. *)
Lemma fire_pending k (l : PLoop) :
  pending (fire k l) = pending l ++ spawned k l
  ∧ (weight (spawned k l) < taskWeight k)%nat.
Proof.
  destruct k as [b orig|n|n|n].
  - unfold fire, tryCatch, resumeSubmit, bind. rewrite showNotification_closed.
    destruct l as [t i ts [f ns jr]]. cbn -[toast].
    split; [done|unfold weight; simpl; lia].
  - destruct l as [t i ts [f ns jr]]. simpl.
    split; [by rewrite app_nil_r|unfold weight; simpl; lia].
  - destruct l as [t i ts [f ns jr]]. simpl.
    split; [done|unfold weight; simpl; lia].
  - destruct l as [t i ts [f ns jr]]. simpl.
    split; [by rewrite app_nil_r|unfold weight; simpl; lia].
Qed.

Lemma drain_within n (l : PLoop) :
  (weight (pending l) ≤ n)%nat → is_Some (runTimers fire n None l).
Proof.
  revert l. induction n as [|n IH]; intros l Hw; simpl.
  - destruct (earliest (pending l)) as [t|] eqn:E; [|done].
    apply earliest_elem_of in E.
    pose proof (weight_filter_out (λ u, tid u ≠ tid t) (pending l) t E
                  (λ H, H eq_refl)) as H.
    assert (0 < taskWeight (task t))%nat by (by destruct (task t); simpl; lia).
    lia.
  - destruct (earliest (pending l)) as [t|] eqn:E; [|done].
    apply IH. apply earliest_elem_of in E.
    pose proof (weight_filter_out (λ u, tid u ≠ tid t) (pending l) t E
                  (λ H, H eq_refl)) as H.
    destruct (fire_pending (task t)
                (mkLoop (due t) (nextId l)
                   (filter (λ u, tid u ≠ tid t) (pending l)) (st l))) as [-> Hlt].
    rewrite weight_app. simpl. lia.
Qed.

(** X16: the timers of the form handler always come to an end. From any
    state of the page and of the queue (toasts being animated or
    removed, submissions under way), running the loop with as much fuel
    as the weight of the pending timers reaches a state where nothing
    is pending; more fuel gives the same state. *)
Theorem form_timers_drain (l : PLoop) :
  ∃ l', runTimers fire (weight (pending l)) None l = Some l'
        ∧ pending l' = []
        ∧ ∀ fuel, (weight (pending l) ≤ fuel)%nat →
                  runTimers fire fuel None l = Some l'.
Proof.
  destruct (drain_within (weight (pending l)) l) as [l' Hl']; [done|].
  exists l'. split_and!; [done|by eapply runTimers_quiescent|].
  intros fuel Hf. by eapply runTimers_more_fuel.
Qed.

Lemma form_timers_drain_witness :
  let f := mkForm [mkInput (Some "text") None "A" EmptyString;
                   mkInput (Some "tel") None "123" EmptyString]
                  [mkButton (Some "submit") "Send" false] in
  let l := (handleConsultationSubmit (start (mkPage f [] []))).1 in
  ∃ l', runTimers fire 4 None l = Some l'
        ∧ pending l' = []
        ∧ runTimers fire 10 None l = Some l'.
Proof.
  intros f l. destruct (form_timers_drain l) as (l' & H1 & H2 & H3).
  exists l'. split_and!; [exact H1|exact H2|].
  apply H3. vm_compute. lia.
Defined.
End FormHandlerMore.

(** ** Mobile navigation *)

Module MobileNavFacts.
Import Dom MobileNav DomFacts.

Lemma contains_toggle a e :
  contains a (classList_toggle a e) = negb (contains a e).
Proof.
  unfold classList_toggle. destruct (contains a e) eqn:E; simpl.
  - apply contains_remove_eq.
  - unfold classList_add. rewrite E. unfold contains; simpl.
    apply bool_decide_eq_true. rewrite elem_of_app, list_elem_of_singleton. by right.
Qed.

Lemma onSpan_in_range i f (p : NavPage) :
  i < length (spans p) →
  onSpan i f p = (mkNavPage (doc p) (alter f i (spans p)), Return tt).
Proof.
  intros Hi. unfold onSpan, bind, gets. cbn [fst snd].
  by destruct (decide (i < length (spans p))).
Qed.

Lemma onSpan_out_of_range i f (p : NavPage) :
  length (spans p) ≤ i →
  onSpan i f p
  = (p, Throw (TypeError "Cannot read properties of undefined (reading 'style')")).
Proof.
  intros Hi. unfold onSpan, bind, gets. cbn [fst snd].
  destruct (decide (i < length (spans p))); [lia|done].
Qed.

Lemma animateHamburger_closed this t (p : NavPage) :
  menuToggle this = Some t → 3 ≤ length (spans p) →
  animateHamburger this p
  = (mkNavPage (doc p) (hamburger (isOpen (Some t) p) (spans p)), Return tt).
Proof.
  intros Ht Hlen. unfold animateHamburger, hamburger. rewrite Ht.
  unfold bind at 1, gets at 1. cbn [fst snd].
  destruct (isOpen (Some t) p); unfold bind.
  - rewrite onSpan_in_range by lia.
    rewrite onSpan_in_range by (cbn [spans]; rewrite length_alter; lia).
    rewrite onSpan_in_range by (cbn [spans]; rewrite !length_alter; lia).
    reflexivity.
  - rewrite onSpan_in_range by lia.
    rewrite onSpan_in_range by (cbn [spans]; rewrite length_alter; lia).
    rewrite onSpan_in_range by (cbn [spans]; rewrite !length_alter; lia).
    reflexivity.
Qed.

(** Changing the class list of both hooks, then animating. *)
Lemma change_both_closed this t n (op : Element → Element) (p : NavPage) :
  menuToggle this = Some t → navList this = Some n →
  3 ≤ length (spans p) →
  (onClassList (navList this) op >> onClassList (menuToggle this) op >>
   animateHamburger this) p
  = (let d := alter op t (alter op n (doc p)) in
     mkNavPage d (hamburger (isOpen (Some t) (mkNavPage d (spans p))) (spans p)),
     Return tt).
Proof.
  intros Ht Hn Hsp. unfold bind, onClassList. rewrite Hn, Ht.
  unfold modify. cbn [fst snd].
  by rewrite (animateHamburger_closed this t) by done.
Qed.

Lemma isOpen_alter (op : Element → Element) t j (d : list Element) ss e :
  d !! j = Some e →
  isOpen (Some j) (mkNavPage (alter op t d) ss)
  = if decide (t = j) then contains "active" (op e) else contains "active" e.
Proof.
  intros He. unfold isOpen. cbn [mbind option_bind doc].
  rewrite list_lookup_alter. case_decide; [subst|]; by rewrite He.
Qed.

Lemma lookup_alter2 {A} (f : A → A) t n (l : list A) j :
  alter f t (alter f n l) !! j
  = (if decide (t = j) then f else id) <$>
      ((if decide (n = j) then f else id) <$> l !! j).
Proof.
  rewrite list_lookup_alter. destruct (decide (t = j)) as [->|Htj].
  - rewrite list_lookup_alter.
    destruct (decide (n = j)) as [->|Hnj]; by destruct (l !! j).
  - rewrite list_lookup_alter.
    destruct (decide (n = j)) as [->|Hnj]; by destruct (l !! j).
Qed.

Lemma hamburger_closed_twice (ss : list Span) :
  hamburger false (hamburger false ss) = hamburger false ss.
Proof.
  unfold hamburger.
  destruct ss as [|[t0 o0] [|[t1 o1] [|[t2 o2] ss]]]; reflexivity.
Qed.

(** X17: the public [openMobileMenu] toggles. With the toggle and the
    list both on the page, as distinct elements, and the three spans of
    the hamburger, a call returns normally and flips the [active]
    marking of both: a closed menu opens, and an open menu closes. The
    hamburger shows the cross exactly when the toggle is marked after
    the call, and no other element changes. *)
Theorem openMobileMenu_toggles this t n et en (p : NavPage) :
  menuToggle this = Some t → navList this = Some n → t ≠ n →
  doc p !! t = Some et → doc p !! n = Some en →
  3 ≤ length (spans p) →
  let result := openMobileMenu (Some this) p in
  result.2 = Return tt
  ∧ isOpen (Some t) result.1 = negb (contains "active" et)
  ∧ isOpen (Some n) result.1 = negb (contains "active" en)
  ∧ spans result.1 = hamburger (negb (contains "active" et)) (spans p)
  ∧ ∀ j, j ≠ t → j ≠ n → doc result.1 !! j = doc p !! j.
Proof.
  intros Ht Hn Hne Het Hen Hsp. cbv zeta. unfold openMobileMenu, toggleMenu.
  rewrite (change_both_closed this t n) by done. cbv zeta. cbn [fst snd spans doc].
  assert (isOpen (Some t)
            (mkNavPage (alter (classList_toggle "active") t
                          (alter (classList_toggle "active") n (doc p))) (spans p))
          = negb (contains "active" et)) as Eo.
  { rewrite (isOpen_alter _ t t _ _ et)
      by (by rewrite list_lookup_alter_ne by done).
    rewrite decide_True by done. apply contains_toggle. }
  split_and!; [done| | |by rewrite Eo|].
  - unfold isOpen in *. cbn [mbind option_bind doc] in *. exact Eo.
  - unfold isOpen. cbn [mbind option_bind doc].
    rewrite list_lookup_alter_ne by done.
    rewrite list_lookup_alter_eq, Hen. simpl. apply contains_toggle.
  - intros j Hjt Hjn. by rewrite !list_lookup_alter_ne by done.
Qed.

Lemma openMobileMenu_toggles_witness :
  let p := mkNavPage [mkElement ["mobile-menu-toggle"; "active"] None [];
                      mkElement ["nav-list"; "active"] None []]
                     [mkSpan "a" "1"; mkSpan "b" "0"; mkSpan "c" "1"] in
  let this := mkMobileNav (Some 0) (Some 1) [] in
  let result := openMobileMenu (Some this) p in
  result.2 = Return tt
  ∧ isOpen (Some 0) result.1 = false
  ∧ isOpen (Some 1) result.1 = false
  ∧ spans result.1
    = [mkSpan "rotate(0deg) translate(0px, 0px)" "1"; mkSpan "b" "1";
       mkSpan "rotate(0deg) translate(0px, 0px)" "1"].
Proof.
  intros p this.
  assert (3 ≤ length (spans p)) as Hsp by (simpl; lia).
  assert (0 ≠ 1) as Hne by lia.
  destruct (openMobileMenu_toggles this 0 1
              (mkElement ["mobile-menu-toggle"; "active"] None [])
              (mkElement ["nav-list"; "active"] None []) p
              eq_refl eq_refl Hne eq_refl eq_refl Hsp)
    as (H1 & H2 & H3 & H4 & _).
  split_and!; [exact H1|exact H2|exact H3|exact H4].
Defined.

(** X18: [closeMenu] closes and is idempotent. Under the same
    conditions it returns normally, leaves neither the toggle nor the
    list marked, shows the three bars, and a second call changes
    nothing. *)
Theorem closeMenu_closes this t n (p : NavPage) :
  menuToggle this = Some t → navList this = Some n →
  is_Some (doc p !! t) → is_Some (doc p !! n) →
  3 ≤ length (spans p) →
  let result := closeMenu this p in
  result.2 = Return tt
  ∧ isOpen (Some t) result.1 = false
  ∧ isOpen (Some n) result.1 = false
  ∧ spans result.1 = hamburger false (spans p)
  ∧ closeMenu this result.1 = result.
Proof.
  intros Ht Hn [et Het] [en Hen] Hsp. cbv zeta. unfold closeMenu.
  rewrite (change_both_closed this t n) by done. cbv zeta. cbn [fst snd].
  set (d := alter (classList_remove "active") t
              (alter (classList_remove "active") n (doc p))).
  assert (∀ ss, isOpen (Some t) (mkNavPage d ss) = false) as Et.
  { intros ss. unfold isOpen, d. cbn [mbind option_bind doc].
    rewrite list_lookup_alter_eq.
    destruct (alter _ n (doc p) !! t) as [e|]; [|done].
    simpl. apply contains_remove_eq. }
  assert (∀ ss, isOpen (Some n) (mkNavPage d ss) = false) as En.
  { intros ss. unfold isOpen, d. cbn [mbind option_bind doc].
    destruct (decide (t = n)) as [->|Hne].
    - rewrite !list_lookup_alter_eq, Hen. simpl. apply contains_remove_eq.
    - rewrite list_lookup_alter_ne by done.
      rewrite list_lookup_alter_eq, Hen. simpl. apply contains_remove_eq. }
  rewrite !Et. split_and!; [done|done|apply En|done|].
  rewrite (change_both_closed this t n)
    by (try done; cbn [spans]; unfold hamburger; rewrite !length_alter; lia).
  cbv zeta. cbn [doc spans].
  assert (alter (classList_remove "active") t
            (alter (classList_remove "active") n d) = d) as ->.
  { unfold d. apply list_eq. intros j. rewrite !lookup_alter2.
    destruct (doc p !! j) as [e|]; [|done]. simpl. f_equal.
    repeat case_decide; simpl; by rewrite ?remove_remove. }
  rewrite Et. f_equal. f_equal.
  apply hamburger_closed_twice.
Qed.

Lemma closeMenu_closes_witness :
  let p := mkNavPage [mkElement ["mobile-menu-toggle"; "active"] None [];
                      mkElement ["nav-list"; "active"] None []]
                     [mkSpan "a" "1"; mkSpan "b" "0"; mkSpan "c" "1"] in
  let this := mkMobileNav (Some 0) (Some 1) [] in
  (closeMenu this p).2 = Return tt
  ∧ isOpen (Some 0) (closeMenu this p).1 = false
  ∧ closeMenu this (closeMenu this p).1 = closeMenu this p.
Proof.
  intros p this.
  assert (3 ≤ length (spans p)) as Hsp by (simpl; lia).
  destruct (closeMenu_closes this 0 1 p eq_refl eq_refl
              (mk_is_Some _ _ eq_refl) (mk_is_Some _ _ eq_refl) Hsp)
    as (H1 & H2 & _ & _ & H5).
  split_and!; [exact H1|exact H2|exact H5].
Defined.

(** X19: a toggle with fewer than three spans. [toggleMenu] has then
    flipped both markings when [animateHamburger] reads the style of a
    span that does not exist: the call throws a TypeError and the menu
    stays toggled. *)
Theorem toggleMenu_too_few_spans this t n et (p : NavPage) :
  menuToggle this = Some t → navList this = Some n → t ≠ n →
  doc p !! t = Some et →
  length (spans p) < 3 →
  let result := toggleMenu this p in
  result.2 = Throw (TypeError "Cannot read properties of undefined (reading 'style')")
  ∧ isOpen (Some t) result.1 = negb (contains "active" et)
  ∧ doc result.1
    = alter (classList_toggle "active") t
        (alter (classList_toggle "active") n (doc p)).
Proof.
  intros Ht Hn Hne Het Hsp. cbv zeta.
  assert (∀ ss,
            isOpen (Some t)
              (mkNavPage (alter (classList_toggle "active") t
                            (alter (classList_toggle "active") n (doc p))) ss)
            = negb (contains "active" et)) as Eo.
  { intros ss. rewrite (isOpen_alter _ t t _ _ et)
      by (by rewrite list_lookup_alter_ne by done).
    rewrite decide_True by done. apply contains_toggle. }
  assert (toggleMenu this p
          = animateHamburger this
              (mkNavPage (alter (classList_toggle "active") t
                            (alter (classList_toggle "active") n (doc p)))
                         (spans p))) as ->.
  { unfold toggleMenu, bind, onClassList. by rewrite Hn, Ht. }
  remember (mkNavPage (alter (classList_toggle "active") t
                         (alter (classList_toggle "active") n (doc p))) (spans p))
    as q eqn:Eq.
  assert (isOpen (Some t) q = negb (contains "active" et)) as Eq1
    by (subst q; apply Eo).
  assert (length (spans q) < 3) as Hq by (by subst q).
  assert (doc q = alter (classList_toggle "active") t
                    (alter (classList_toggle "active") n (doc p))) as Hdoc
    by (by subst q).
  clear Eq Eo.
  assert ((animateHamburger this q).2
          = Throw (TypeError "Cannot read properties of undefined (reading 'style')")
          ∧ doc (animateHamburger this q).1 = doc q) as [Ea Ed].
  { unfold animateHamburger. rewrite Ht. unfold bind, gets.
    cbn [fst snd]. rewrite !Eq1. destruct q as [d ss]. cbn [spans doc] in *.
    destruct ss as [|s0 [|s1 [|s2 ss]]]; [| | |simpl in Hq; lia];
      destruct (negb (contains "active" et));
      unfold onSpan, bind, gets, modify, throw; by cbn. }
  split_and!; [exact Ea| |by rewrite Ed].
  unfold isOpen in *. cbn [mbind option_bind] in *. by rewrite Ed.
Qed.

Lemma toggleMenu_too_few_spans_witness :
  let p := mkNavPage [mkElement ["mobile-menu-toggle"] None [];
                      mkElement ["nav-list"] None []]
                     [mkSpan "a" "1"] in
  let this := mkMobileNav (Some 0) (Some 1) [] in
  (toggleMenu this p).2
  = Throw (TypeError "Cannot read properties of undefined (reading 'style')")
  ∧ isOpen (Some 0) (toggleMenu this p).1 = true.
Proof.
  intros p this.
  assert (length (spans p) < 3) as Hsp by (simpl; lia).
  assert (0 ≠ 1) as Hne by lia.
  destruct (toggleMenu_too_few_spans this 0 1
              (mkElement ["mobile-menu-toggle"] None []) p
              eq_refl eq_refl Hne eq_refl Hsp)
    as (H1 & H2 & _).
  split; [exact H1|exact H2].
Defined.

(** X20: a page without the navigation list. The widget binds no
    listener, so a click on the toggle does nothing; but the public
    [openMobileMenu] still calls [toggleMenu], which throws a TypeError
    on the missing list before anything is changed. *)
Theorem openMobileMenu_without_list (p : NavPage) :
  querySelector (ByClasses ["nav-list"]) (doc p) = None →
  ∃ this, init p = (p, Return this)
    ∧ navList this = None
    ∧ clickToggle this p = (p, Return tt)
    ∧ openMobileMenu (Some this) p
      = (p, Throw (TypeError "Cannot read properties of null (reading 'classList')")).
Proof.
  intros Hn. eexists. unfold init, bind, gets, ret. cbn [fst snd]. rewrite Hn.
  split; [reflexivity|]. cbn [navList]. split; [done|].
  split.
  - unfold clickToggle, bound. cbn [menuToggle navList].
    by destruct (querySelector (ByClasses ["mobile-menu-toggle"]) (doc p)).
  - unfold openMobileMenu, toggleMenu, bind, onClassList. by cbn [navList].
Qed.

Lemma openMobileMenu_without_list_witness :
  let p := mkNavPage [mkElement ["mobile-menu-toggle"] None []] [] in
  ∃ this, init p = (p, Return this)
    ∧ navList this = None
    ∧ clickToggle this p = (p, Return tt)
    ∧ openMobileMenu (Some this) p
      = (p, Throw (TypeError "Cannot read properties of null (reading 'classList')")).
Proof. apply openMobileMenu_without_list. reflexivity. Defined.
End MobileNavFacts.

(** ** Scroll animation *)

Module AutoScrollFacts.
Import Dom AutoScroll DomFacts.

Lemma allAnyFrom_elem_of cs (doc : list Element) i j :
  j ∈ allAnyFrom i cs doc
  ↔ i ≤ j ∧ ∃ e, doc !! (j - i) = Some e ∧ matchesAny cs e = true.
Proof.
  revert i. induction doc as [|e doc IH]; intros i; simpl.
  - rewrite elem_of_nil. split; [done|]. by intros (_ & e & He & _).
  - assert (j ∈ allAnyFrom (S i) cs doc
            ↔ i < j ∧ ∃ e', (e :: doc) !! (j - i) = Some e' ∧ matchesAny cs e' = true)
      as Htail.
    { rewrite IH. split.
      - intros (Hle & e' & He' & Hm). split; [lia|]. exists e'.
        by replace (j - i) with (S (j - S i)) by lia.
      - intros (Hlt & e' & He' & Hm). split; [lia|]. exists e'.
        by replace (j - i) with (S (j - S i)) in He' by lia. }
    destruct (matchesAny cs e) eqn:E.
    + rewrite elem_of_cons, Htail. split.
      * intros [->|[Hlt H]]; [|split; [lia|done]].
        split; [done|]. exists e. by rewrite Nat.sub_diag.
      * intros (Hle & e' & He' & Hm).
        destruct (decide (j = i)) as [->|Hne]; [by left|right].
        split; [lia|]. by exists e'.
    + rewrite Htail. split.
      * intros [Hlt H]. split; [lia|done].
      * intros (Hle & e' & He' & Hm).
        destruct (decide (j = i)) as [->|Hne].
        -- rewrite Nat.sub_diag in He'. simpl in He'. congruence.
        -- split; [lia|]. by exists e'.
Qed.

Lemma allAnyFrom_NoDup cs (doc : list Element) i : NoDup (allAnyFrom i cs doc).
Proof.
  revert i. induction doc as [|e doc IH]; intros i; simpl; [constructor|].
  destruct (matchesAny cs e); [|done].
  apply NoDup_cons. split; [|done].
  rewrite allAnyFrom_elem_of. intros [Hle _]. lia.
Qed.

Section Viewport.
Variable isInViewport : nat → bool.

Local Abbreviation step := (step isInViewport).
Local Abbreviation animateElement := (animateElement isInViewport).
Local Abbreviation animateElem := (animateElem isInViewport).

Lemma animateElement_closed el (doc : list Element) :
  animateElement el doc = (alter (step el) el doc, Return tt).
Proof.
  unfold AutoScroll.animateElement, bind, gets. cbn [fst snd].
  destruct (doc !! el) as [e|] eqn:E.
  - destruct (isInViewport el && negb (contains "animated" e)) eqn:C.
    + unfold modify. f_equal. apply list_alter_ext; [|done].
      intros x Hx. rewrite E in Hx. injection Hx as <-.
      unfold AutoScroll.step. by rewrite C.
    + unfold ret. f_equal. symmetry. apply list_eq. intros j.
      rewrite list_lookup_alter. case_decide; [subst|done].
      rewrite E. simpl. unfold AutoScroll.step. by rewrite C.
  - assert (∀ f : Element → Element, alter f el doc = doc) as Hid.
    { intros f. apply list_eq. intros j. rewrite list_lookup_alter.
      case_decide; [subst|done]. by rewrite E. }
    destruct (isInViewport el && negb false); unfold modify, ret;
      by rewrite !Hid.
Qed.

Lemma forEach_animate_lookup (l : list nat) (doc : list Element) j :
  NoDup l →
  (forEach animateElement l doc).2 = Return tt
  ∧ (forEach animateElement l doc).1 !! j
    = (if decide (j ∈ l) then step j else id) <$> doc !! j.
Proof.
  intros Hnd. revert doc. induction Hnd as [|x l Hx Hnd IH]; intros doc.
  - split; [done|]. simpl.
    destruct (decide (j ∈ [])) as [H|_]; [by apply elem_of_nil in H|].
    by destruct (doc !! j).
  - cbn [forEach]. unfold bind. rewrite animateElement_closed.
    destruct (IH (alter (step x) x doc)) as [Hr Hl]. split; [done|].
    rewrite Hl, list_lookup_alter.
    destruct (decide (j ∈ x :: l)) as [Hc|Hc], (decide (j ∈ l)) as [Hjl|Hjl],
      (decide (x = j)) as [->|Hne]; destruct (doc !! j) as [e|]; simpl;
      try done;
      try (exfalso; apply Hc; by (left || right));
      by apply elem_of_cons in Hc as [->|?].
Qed.

Lemma animateOnScroll_closed (doc : list Element) :
  animateOnScroll isInViewport doc = (imap animateElem doc, Return tt).
Proof.
  unfold animateOnScroll, bind, gets. cbn [fst snd].
  pose proof (λ j, forEach_animate_lookup (allAnyFrom 0 animatedSelectors doc) doc j
                     (allAnyFrom_NoDup _ _ _)) as H.
  destruct (forEach animateElement (allAnyFrom 0 animatedSelectors doc) doc)
    as [doc' r].
  cbn [fst snd] in H. f_equal; [|by destruct (H 0)].
  apply list_eq. intros j. destruct (H j) as [_ ->].
  rewrite list_lookup_imap. destruct (doc !! j) as [e|] eqn:E; [|done].
  simpl. f_equal. unfold AutoScroll.animateElem, AutoScroll.step.
  destruct (decide (j ∈ allAnyFrom 0 animatedSelectors doc)) as [Hin|Hin].
  - apply allAnyFrom_elem_of in Hin as (_ & e' & He' & Hm).
    rewrite Nat.sub_0_r, E in He'. injection He' as <-. by rewrite Hm.
  - destruct (matchesAny animatedSelectors e) eqn:Hm; [|done].
    exfalso. apply Hin. apply allAnyFrom_elem_of. split; [lia|].
    exists e. by rewrite Nat.sub_0_r.
Qed.

Lemma contains_animateElem c j e :
  contains c e = true → contains c (animateElem j e) = true.
Proof.
  intros Hc. unfold AutoScroll.animateElem.
  destruct (_ && _ && _); [|done].
  assert (∀ a x, contains c x = true → contains c (classList_add a x) = true)
    as Hadd.
  { intros a x Hx. destruct (decide (c = a)) as [->|Hne].
    - apply contains_add_eq.
    - by rewrite contains_add_ne. }
  by apply Hadd, Hadd.
Qed.

Lemma animateElem_twice j e :
  animateElem j (animateElem j e) = animateElem j e.
Proof.
  unfold AutoScroll.animateElem at 2.
  destruct (_ && _ && _) eqn:C; [|done].
  unfold AutoScroll.animateElem.
  by rewrite C, contains_add_eq, andb_false_r.
Qed.
End Viewport.

(** X21: [animateOnScroll] for a given position of the viewport. It
    returns normally; every element of the selector list that is in the
    viewport is marked [animated] afterwards; no element loses a class,
    changes its [data-tab] or its children; an element outside the
    selector list or outside the viewport is not touched; and a second
    run at the same position changes nothing. *)
Theorem animateOnScroll_marks (isInViewport : nat → bool) (doc : list Element) :
  let result := animateOnScroll isInViewport doc in
  result.2 = Return tt
  ∧ length result.1 = length doc
  ∧ (∀ j e, doc !! j = Some e →
       ∃ e', result.1 !! j = Some e'
         ∧ dataTab e' = dataTab e ∧ children e' = children e
         ∧ (∀ c, contains c e = true → contains c e' = true)
         ∧ (matchesAny animatedSelectors e = true → isInViewport j = true →
            contains "animated" e' = true)
         ∧ (matchesAny animatedSelectors e = false ∨ isInViewport j = false →
            e' = e))
  ∧ animateOnScroll isInViewport result.1 = result.
Proof.
  cbv zeta. rewrite !animateOnScroll_closed. cbn [fst snd].
  split_and!; [done|by rewrite length_imap| |].
  - intros j e He. exists (animateElem isInViewport j e).
    rewrite list_lookup_imap, He. split_and!; [done| | | | |].
    + unfold animateElem. destruct (_ && _ && _); [|done].
      unfold classList_add. by repeat destruct (contains _ _).
    + unfold animateElem. destruct (_ && _ && _); [|done].
      unfold classList_add. by repeat destruct (contains _ _).
    + intros c. apply contains_animateElem.
    + intros Hm Hv. unfold animateElem. rewrite Hm, Hv. simpl.
      destruct (contains "animated" e) eqn:Ha; simpl; [done|].
      apply contains_add_eq.
    + intros [Hm|Hv]; unfold animateElem; [by rewrite Hm|].
      by rewrite Hv, andb_false_r.
  - f_equal. apply list_eq. intros j. rewrite !list_lookup_imap.
    destruct (doc !! j) as [e|]; [|done]. simpl.
    by rewrite animateElem_twice.
Qed.

Lemma animateOnScroll_marks_witness :
  let doc := [mkElement ["section-title"] None [];
              mkElement ["team-member"; "animated"] None [];
              mkElement ["category-card"] None [];
              mkElement ["hero"] None []] in
  let visible := λ j, bool_decide (j ≠ 2) in
  (animateOnScroll visible doc).1
  = [mkElement ["section-title"; "fade-in-up"; "animated"] None [];
     mkElement ["team-member"; "animated"] None [];
     mkElement ["category-card"] None [];
     mkElement ["hero"] None []]
  ∧ animateOnScroll visible (animateOnScroll visible doc).1
    = animateOnScroll visible doc.
Proof.
  intros doc visible. split; [reflexivity|].
  apply (animateOnScroll_marks visible doc).
Defined.
End AutoScrollFacts.
